(** * SunImage: time strings, dial angles, twilight times and label slots

    A shallow embedding of the pure part of [SunImage.ts] of sun-builder
    (the private helpers [getAngle], [getRenderAngle], [formatTime],
    [getTwilight], and the label-slot and sun-marker steps of [getImage]),
    with the JavaScript primitives they rest on: [String.prototype.split],
    [Number(...)] on a string, the arithmetic and comparison operators on
    numbers, and the number-to-string conversion of template literals.

    Numbers.  A JavaScript number is an IEEE-754 double.  Every number this
    program computes from a time string of whole hours and minutes is a
    multiple of 1/4 of small magnitude, on which double arithmetic is
    exact; numbers are therefore modelled as exact rationals, together with
    NaN and the two infinities.  Rounding to the nearest double is not
    modelled there ([Number] gives the value that a numeral denotes), and
    neither is the sign of zero (no operation of the program observes it).
    Finite values are kept in lowest terms, so that equal numbers are equal
    terms.  Where rounding decides a statement, which is the case of
    [getRenderAngle] and its period, the function is given a second time on
    binary64 values, in [Binary64]. *)

From Stdlib Require Import ZArith NArith QArith Qround Qreduction.
From Stdlib Require Import Ascii String List Bool Lia Lqa.
From Stdlib Require Floats.SpecFloat.
Import ListNotations.

Local Open Scope Z_scope.

(** ** JavaScript numbers *)

Inductive number : Type :=
| NaN
| Inf (negative : bool)
| Num (q : Q).

(** A finite value in lowest terms. *)
Definition num (q : Q) : number := Num (Qred q).

Definition ofZ (z : Z) : number := Num (inject_Z z).

Definition isNaN (a : number) : bool :=
  match a with NaN => true | _ => false end.

Definition Qltb (a b : Q) : bool := negb (Qle_bool b a).

Definition Qsign_neg (q : Q) : bool := Qltb q 0.

Definition Qzero (q : Q) : bool := Qeq_bool q 0.

(** Truncation toward zero, and the remainder that goes with it: the
    result of [%] has the sign of the dividend. *)
Definition Qtrunc (q : Q) : Z := Z.quot (Qnum q) (Zpos (Qden q)).

Definition Qrem (a b : Q) : Q := (a - b * inject_Z (Qtrunc (a / b)))%Q.

(** The mathematical modulo, with a result in [0, b) for [b > 0]. *)
Definition Qmod (a b : Q) : Q := (a - b * inject_Z (Qfloor (a / b)))%Q.

Definition neg (a : number) : number :=
  match a with
  | NaN => NaN
  | Inf s => Inf (negb s)
  | Num q => num (- q)
  end.

Definition add (a b : number) : number :=
  match a, b with
  | NaN, _ | _, NaN => NaN
  | Inf s, Inf t => if Bool.eqb s t then Inf s else NaN
  | Inf s, Num _ | Num _, Inf s => Inf s
  | Num p, Num q => num (p + q)
  end.

Definition sub (a b : number) : number := add a (neg b).

Definition mul (a b : number) : number :=
  match a, b with
  | NaN, _ | _, NaN => NaN
  | Inf s, Inf t => Inf (xorb s t)
  | Inf s, Num q | Num q, Inf s =>
      if Qzero q then NaN else Inf (xorb s (Qsign_neg q))
  | Num p, Num q => num (p * q)
  end.

Definition div (a b : number) : number :=
  match a, b with
  | NaN, _ | _, NaN => NaN
  | Inf _, Inf _ => NaN
  | Inf s, Num q => Inf (xorb s (Qsign_neg q))
  | Num _, Inf _ => Num 0
  | Num p, Num q =>
      if Qzero q then (if Qzero p then NaN else Inf (Qsign_neg p))
      else num (p / q)
  end.

(** [a % b] *)
Definition rem (a b : number) : number :=
  match a, b with
  | NaN, _ | _, NaN => NaN
  | Inf _, _ => NaN
  | Num p, Inf _ => Num p
  | Num p, Num q => if Qzero q then NaN else num (Qrem p q)
  end.

(** [a < b]; every comparison with NaN is false. *)
Definition lt (a b : number) : bool :=
  match a, b with
  | NaN, _ | _, NaN => false
  | Inf s, Inf t => s && negb t
  | Inf s, Num _ => s
  | Num _, Inf t => negb t
  | Num p, Num q => Qltb p q
  end.

Definition gt (a b : number) : bool := lt b a.

(** [a === b] on numbers *)
Definition strictEq (a b : number) : bool :=
  match a, b with
  | Inf s, Inf t => Bool.eqb s t
  | Num p, Num q => Qeq_bool p q
  | _, _ => false
  end.

(** [a <= b] *)
Definition le (a b : number) : bool := lt a b || strictEq a b.

(** [a >= b] *)
Definition ge (a b : number) : bool := le b a.

Declare Scope js_scope.
Delimit Scope js_scope with js.
Bind Scope js_scope with number.
Notation "a + b" := (add a b) : js_scope.
Notation "a - b" := (sub a b) : js_scope.
Notation "a * b" := (mul a b) : js_scope.
Notation "a / b" := (div a b) : js_scope.
Notation "a 'mod' b" := (rem a b) : js_scope.
Notation "a <? b" := (lt a b) : js_scope.
Notation "a >? b" := (gt a b) : js_scope.
Notation "a <=? b" := (le a b) : js_scope.
Notation "a >=? b" := (ge a b) : js_scope.
Notation "a =? b" := (strictEq a b) : js_scope.

(** [Math.PI], the double 0x400921FB54442D18. *)
Definition Math_PI : number := Num (884279719003555 # 281474976710656).

(** ** JavaScript strings

    Strings are sequences of code units below 256: the time strings of the
    data provider are ASCII. *)

Local Open Scope string_scope.

Definition chr (n : N) : ascii := ascii_of_N n.

Definition isChar (n : N) (c : ascii) : bool := (N_of_ascii c =? n)%N.

(** The double-quote character, that the log messages contain. *)
Definition dquote : string := String (chr 34) EmptyString.

(** [s.split(sep)] for a one-character separator: the fields between the
    separators, in order; a string with no separator is its own single
    field, the empty string included. *)
Fixpoint split (sep : ascii) (s : string) : list string :=
  match s with
  | EmptyString => [EmptyString]
  | String c s' =>
      if Ascii.eqb c sep then EmptyString :: split sep s'
      else match split sep s' with
           | f :: fs => String c f :: fs
           | [] => [String c EmptyString]
           end
  end.

(** [arr[i]]: [undefined] (here [None]) past the end. *)
Definition index {A : Type} (arr : list A) (i : nat) : option A := nth_error arr i.

(** *** [Number(s)]: the StringToNumber conversion

    StringNumericLiteral of ECMA-262: optional white space around either
    nothing (the result is 0), a binary, octal or hexadecimal integer
    literal, or an optionally signed decimal literal or [Infinity].
    Anything else is NaN.  The result is the value that the literal
    denotes.  JavaScript returns the double nearest to it: the same number
    for the whole hours and minutes of a time string, and a double that is
    at most, or at least, a given whole number whenever the value is. *)

Definition isStrWhiteSpace (c : ascii) : bool :=
  let n := N_of_ascii c in
  ((9 <=? n) && (n <=? 13) || (n =? 32) || (n =? 160))%N.

Fixpoint dropWhite (l : list ascii) : list ascii :=
  match l with
  | c :: l' => if isStrWhiteSpace c then dropWhite l' else l
  | [] => []
  end.

Definition trimWhite (l : list ascii) : list ascii :=
  rev (dropWhite (rev (dropWhite l))).

Definition digitOf (base : N) (c : ascii) : option N :=
  let n := N_of_ascii c in
  let v := if ((48 <=? n) && (n <=? 57))%N then Some (n - 48)%N
           else if ((97 <=? n) && (n <=? 102))%N then Some (n - 87)%N
           else if ((65 <=? n) && (n <=? 70))%N then Some (n - 55)%N
           else None in
  match v with
  | Some d => if (d <? base)%N then Some d else None
  | None => None
  end.

(** The longest run of digits at the head of [l]: its value, its length
    and what follows it. *)
Fixpoint digitRun (base acc : N) (cnt : nat) (l : list ascii)
  : N * nat * list ascii :=
  match l with
  | c :: l' =>
      match digitOf base c with
      | Some d => digitRun base (acc * base + d)%N (S cnt) l'
      | None => (acc, cnt, l)
      end
  | [] => (acc, cnt, [])
  end.

Definition pow10 (e : Z) : Q :=
  if (e <? 0)%Z then (1 / inject_Z (10 ^ (- e)))%Q else inject_Z (10 ^ e).

(** ExponentPart, optional: nothing, or [e] or [E], an optional sign and at
    least one digit, up to the end of the literal. *)
Definition exponentPart (l : list ascii) : option Z :=
  match l with
  | [] => Some 0
  | c :: l1 =>
      if isChar 101 c || isChar 69 c then
        let '(negative, l2) :=
          match l1 with
          | s :: r => if isChar 45 s then (true, r)
                      else if isChar 43 s then (false, r) else (false, l1)
          | [] => (false, l1)
          end in
        match digitRun 10 0 0 l2 with
        | (v, S _, []) => Some (if negative then - Z.of_N v else Z.of_N v)
        | _ => None
        end
      else None
  end.

(** StrUnsignedDecimalLiteral *)
Definition strUnsignedDecimal (l : list ascii) : option number :=
  if String.eqb (string_of_list_ascii l) "Infinity" then Some (Inf false)
  else
    let '(ip, n1, r1) := digitRun 10 0 0 l in
    let dotted :=
      match r1 with
      | c :: r2 => if isChar 46 c then Some r2 else None
      | [] => None
      end in
    match dotted with
    | Some r2 =>
        let '(fp, n2, r3) := digitRun 10 0 0 r2 in
        match (n1 + n2)%nat, exponentPart r3 with
        | S _, Some e =>
            Some (num (inject_Z (Z.of_N ip * 10 ^ Z.of_nat n2 + Z.of_N fp)
                       * pow10 (e - Z.of_nat n2)))
        | _, _ => None
        end
    | None =>
        match n1, exponentPart r1 with
        | S _, Some e => Some (num (inject_Z (Z.of_N ip) * pow10 e))
        | _, _ => None
        end
    end.

(** StrDecimalLiteral: an optional sign before the unsigned literal. *)
Definition strDecimal (l : list ascii) : option number :=
  match l with
  | c :: r =>
      if isChar 43 c then strUnsignedDecimal r
      else if isChar 45 c then option_map neg (strUnsignedDecimal r)
      else strUnsignedDecimal l
  | [] => None
  end.

(** NonDecimalIntegerLiteral: [0x], [0o] or [0b] (either case) and at least
    one digit of that base; no sign. *)
Definition nonDecimalInteger (l : list ascii) : option number :=
  match l with
  | z :: c :: r =>
      let base :=
        if isChar 120 c || isChar 88 c then Some 16%N
        else if isChar 111 c || isChar 79 c then Some 8%N
        else if isChar 98 c || isChar 66 c then Some 2%N
        else None in
      match isChar 48 z, base with
      | true, Some b =>
          match digitRun b 0 0 r with
          | (v, S _, []) => Some (ofZ (Z.of_N v))
          | _ => None
          end
      | _, _ => None
      end
  | _ => None
  end.

Definition StringToNumber (s : string) : number :=
  match trimWhite (list_ascii_of_string s) with
  | [] => Num 0
  | l =>
      match nonDecimalInteger l with
      | Some v => v
      | None =>
          match strDecimal l with
          | Some v => v
          | None => NaN
          end
      end
  end.

(** [Number(v)] and unary [+v] for [v] a string or [undefined]. *)
Definition Number (v : option string) : number :=
  match v with
  | Some s => StringToNumber s
  | None => NaN
  end.

(** *** Number to string: [`${x}`]

    Number::toString of ECMA-262 in radix 10.  With [s] the decimal digits
    of the value without trailing zeros, [k] their count and [n] the
    position of the decimal point ([x = s * 10^(n-k)]): plain digits when
    [k <= n <= 21], a decimal point inside when [0 < n <= 21], a leading
    [0.] when [-6 < n <= 0], and exponent notation otherwise.  [s] is here
    the exact decimal expansion; a finite value with no finite expansion
    (none arises from a literal by the operations of this program) is cut
    after 20 decimal places. *)

Fixpoint digitsGo (fuel : nat) (n : N) (acc : string) : string :=
  match fuel with
  | O => acc
  | S f =>
      let acc' := String (chr (48 + n mod 10)) acc in
      if (n / 10 =? 0)%N then acc' else digitsGo f (n / 10)%N acc'
  end.

(** The decimal digits of a natural number, no leading zero. *)
Definition digits (n : N) : string :=
  digitsGo (S (N.to_nat (N.log2 n))) n EmptyString.

Fixpoint zeros (n : nat) : string :=
  match n with
  | O => EmptyString
  | S n' => String (chr 48) (zeros n')
  end.

(** The least [j] from [j0] on with [d] dividing [10^j]. *)
Fixpoint decimalScale (fuel : nat) (j : N) (d : positive) : option N :=
  if ((10 ^ j) mod (Npos d) =? 0)%N then Some j
  else match fuel with
       | O => None
       | S f => decimalScale f (j + 1)%N d
       end.

Fixpoint stripZeros (fuel : nat) (s t : N) : N * N :=
  match fuel with
  | O => (s, t)
  | S f =>
      if (negb (s =? 0) && (s mod 10 =? 0))%N then stripZeros f (s / 10)%N (t + 1)%N
      else (s, t)
  end.

(** For [q > 0]. *)
Definition positiveToString (q : Q) : string :=
  let a := Z.to_N (Qnum q) in
  let d := Qden q in
  let j := match decimalScale (Pos.size_nat d) 0 d with
           | Some j => j
           | None => 20%N
           end in
  let '(s, t) := stripZeros (N.to_nat (N.log2 (a * 10 ^ j))) (a * 10 ^ j / Npos d)%N 0%N in
  let ds := digits s in
  let k := String.length ds in
  let n := (Z.of_nat k + Z.of_N t - Z.of_N j)%Z in
  if ((Z.of_nat k <=? n) && (n <=? 21))%Z then
    ds ++ zeros (Z.to_nat n - k)
  else if ((0 <? n) && (n <=? 21))%Z then
    substring 0 (Z.to_nat n) ds ++ "." ++ substring (Z.to_nat n) (k - Z.to_nat n) ds
  else if ((-6 <? n) && (n <=? 0))%Z then
    "0." ++ zeros (Z.to_nat (- n)) ++ ds
  else
    let e := (n - 1)%Z in
    let es := (if (e <? 0)%Z then "-" else "+") ++ digits (Z.abs_N e) in
    if (k =? 1)%nat then ds ++ "e" ++ es
    else substring 0 1 ds ++ "." ++ substring 1 (k - 1) ds ++ "e" ++ es.

Definition toString (a : number) : string :=
  match a with
  | NaN => "NaN"
  | Inf false => "Infinity"
  | Inf true => "-Infinity"
  | Num q =>
      if Qzero q then "0"
      else if Qsign_neg q then "-" ++ positiveToString (Qred (- q))
      else positiveToString (Qred q)
  end.

(** ** Effects: the logger and the drawing context

    The functions of [SunImage] call [this.logger] and the 2D context of
    the image.  Both are collaborators outside this file, so a call is
    recorded, in program order, as an event of the run. *)

Inductive CanvasCmd : Type :=
| Save
| Restore
| Translate (x y : number)
| Rotate (angle : number)
| BeginPath
| SetFillStyle (style : string)
| SetFont (font : string)
| Arc (x y radius startAngle endAngle : number)
| Fill
| CenterText (text : string) (x y : number).

Inductive Event : Type :=
| Warn (message : string)
| Info (message : string)
| Ctx (cmd : CanvasCmd).

Definition Eff (A : Type) : Type := A * list Event.

Definition ret {A : Type} (a : A) : Eff A := (a, []).

Definition bind {A B : Type} (c : Eff A) (k : A -> Eff B) : Eff B :=
  let '(a, l1) := c in
  let '(b, l2) := k a in
  (b, l1 ++ l2)%list.

Definition emit (e : Event) : Eff unit := (tt, [e]).

Definition logger_warn (message : string) : Eff unit := emit (Warn message).

Definition ctx (cmd : CanvasCmd) : Eff unit := emit (Ctx cmd).

Definition result {A : Type} (c : Eff A) : A := fst c.

Definition events {A : Type} (c : Eff A) : list Event := snd c.

Declare Scope eff_scope.
Delimit Scope eff_scope with eff.
Notation "x <- c ;; k" := (bind c (fun x => k))
  (at level 61, c at next level, right associativity) : eff_scope.
Notation "c ;; k" := (bind c (fun _ => k))
  (at level 61, right associativity) : eff_scope.
Local Open Scope eff_scope.

(** ** SunImage *)

Notation "arr .[ i ]" := (index arr i) (at level 1, format "arr .[ i ]").

(** The validity test that opens [getAngle], [formatTime] and
    [getTwilight], written out in each of them in the source. *)
Definition invalidTime (timeElements : list string) : bool :=
  (List.length timeElements <? 2)%nat ||
  isNaN (Number timeElements.[0]) ||
  isNaN (Number timeElements.[1]) ||
  (Number timeElements.[0] <? Num 0)%js ||
  (Number timeElements.[0] >? Num 23)%js ||
  (Number timeElements.[1] <? Num 0)%js ||
  (Number timeElements.[1] >? Num 59)%js.

Definition colon : ascii := chr 58.

(** Takes the time (hh:mm) and converts to degrees. *)
Definition getAngle (timeStr : string) : Eff number :=
  let timeElements := split colon timeStr in
  if invalidTime timeElements then
    logger_warn ("SunImage: getAngle() failed on input " ++ dquote ++ timeStr ++ dquote) ;;
    ret (Num 0)
  else
    let angle := (Number timeElements.[0] * Num 15 + Number timeElements.[1] / Num 4)%js in
    ret angle.

(** Converts a dial angle to a rotation in radians from the X axis. *)
Definition getRenderAngle (timeAngle : number) : number :=
  let renderAngle := (timeAngle + Num 180 - Num 90)%js in
  let renderAngle := (renderAngle mod Num 360)%js in
  let renderAngle := (renderAngle * Math_PI / Num 180)%js in
  renderAngle.

(** Formats the time for display: 12 hour time with AM/PM. *)
Definition formatTime (timeStr : string) : Eff string :=
  let timeElements := split colon timeStr in
  if invalidTime timeElements then
    logger_warn ("SunImage: formatTime() failed on input " ++ dquote ++ timeStr) ;;
    ret EmptyString
  else
    let hour := (Number timeElements.[0] mod Num 12)%js in
    let hour := if (hour =? Num 0)%js then Num 12 else hour in
    let min := Number timeElements.[1] in
    let minStr := if (min <? Num 10)%js then "0" ++ toString min else toString min in
    let amPmStr := if (Number timeElements.[0] >? Num 11)%js then "PM" else "AM" in
    ret (toString hour ++ ":" ++ minStr ++ " " ++ amPmStr).

(** Calculates a time earlier ([am]) or later (otherwise) than the time
    given. *)
Definition getTwilight (timeStr amPm : string) : Eff string :=
  let timeElements := split colon timeStr in
  if invalidTime timeElements then
    logger_warn ("SunImage: getTwilight() failed on input " ++ dquote ++ timeStr) ;;
    ret EmptyString
  else
    let hour := (Number timeElements.[0] mod Num 12)%js in
    let hour := if (hour =? Num 0)%js then Num 12 else hour in
    let min := Number timeElements.[1] in
    let '(min, hour) :=
      if String.eqb amPm "am" then
        if (min >=? Num 36)%js then ((min - Num 36)%js, (hour - Num 1)%js)
        else ((min + Num 24)%js, (hour - Num 2)%js)
      else
        if (min <? Num 36)%js then ((min + Num 24)%js, (hour + Num 1)%js)
        else ((min - Num 36)%js, (hour + Num 2)%js) in
    let hourStr := if (hour <? Num 10)%js then "0" ++ toString hour else toString hour in
    let minStr := if (min <? Num 10)%js then "0" ++ toString min else toString min in
    ret (hourStr ++ ":" ++ minStr).

(** *** [getRenderAngle] on doubles

    Exact numbers stand for the doubles of the program as long as no
    operation rounds.  [getRenderAngle] is where one does: the product with
    [Math.PI] and its quotient by 180 are rounded, and so are the sum and
    the difference before them when the angle is not a small multiple of a
    quarter of a degree.  Here the function is written on IEEE-754 binary64
    values, with the operations of the standard library's [SpecFloat]
    (round to nearest, ties to even).  [%] is the remainder that ECMAScript
    specifies: the dividend less the divisor times the truncated quotient,
    computed exactly, with the sign of the dividend. *)

Module Binary64.

Definition double : Type := SpecFloat.spec_float.

Definition prec : Z := 53.
Definition emax : Z := 1024.

(** The double of integer [z], and of [k] quarters. *)
Definition ofZ (z : Z) : double := SpecFloat.binary_normalize prec emax z 0 false.

Definition quarters (k : Z) : double := SpecFloat.binary_normalize prec emax k (-2) false.

Definition add : double -> double -> double := SpecFloat.SFadd prec emax.
Definition sub : double -> double -> double := SpecFloat.SFsub prec emax.
Definition mul : double -> double -> double := SpecFloat.SFmul prec emax.
Definition div : double -> double -> double := SpecFloat.SFdiv prec emax.

(** [n % d] *)
Definition rem (n d : double) : double :=
  match n, d with
  | SpecFloat.S754_nan, _ | _, SpecFloat.S754_nan => SpecFloat.S754_nan
  | SpecFloat.S754_infinity _, _ => SpecFloat.S754_nan
  | _, SpecFloat.S754_zero _ => SpecFloat.S754_nan
  | SpecFloat.S754_zero _, _ => n
  | _, SpecFloat.S754_infinity _ => n
  | SpecFloat.S754_finite sn mn en, SpecFloat.S754_finite _ md ed =>
      let e := Z.min en ed in
      let r := Z.rem (Zpos mn * 2 ^ (en - e)) (Zpos md * 2 ^ (ed - e)) in
      if (r =? 0)%Z then SpecFloat.S754_zero sn
      else SpecFloat.binary_normalize prec emax (if sn then - r else r) e false
  end.

(** [Math.PI], the double 0x400921FB54442D18. *)
Definition Math_PI : double := SpecFloat.S754_finite false 7074237752028440 (-51).

Definition getRenderAngle (timeAngle : double) : double :=
  let renderAngle := sub (add timeAngle (ofZ 180)) (ofZ 90) in
  let renderAngle := rem renderAngle (ofZ 360) in
  let renderAngle := div (mul renderAngle Math_PI) (ofZ 180) in
  renderAngle.

(** For the statements: the degrees that the first two lines compute and
    the conversion of the last line, each alone; the double that the
    literal [0.1] denotes, which is [1 / 10], and the double that a
    fraction rounds to. *)
Definition renderDegrees (timeAngle : double) : double :=
  rem (sub (add timeAngle (ofZ 180)) (ofZ 90)) (ofZ 360).

Definition radians (degrees : double) : double := div (mul degrees Math_PI) (ofZ 180).

Definition tenth : double := div (ofZ 1) (ofZ 10).

(** The double nearest to the fraction [n / d]. *)
Definition ofRatio (n d : positive) : double :=
  div (SpecFloat.S754_finite false n 0) (SpecFloat.S754_finite false d 0).

(** For the proofs: the mantissa [p] moved left by [n] binary places,
    and the double of sign [s] whose value is [p] times 2 to the [e], for
    a mantissa of at most 53 digits. *)
Definition shl (p : positive) (n : Z) : positive :=
  match n with
  | Zpos d => Pos.iter xO p d
  | _ => p
  end.

Definition canonical (s : bool) (p : positive) (e : Z) : double :=
  let d := Zpos (SpecFloat.digits2_pos p) in
  SpecFloat.S754_finite s (shl p (53 - d)) (e + d - 53).

End Binary64.

(** *** The steps of [getImage] on the sun data

    [getImage] fetches the sun data, draws the dial and encodes the image.
    Modelled here are its steps that compute with the times: the fix-up of
    the data, the angles, the sun marker and the labels. *)

Record SunJson : Type := {
  sunrise : string;
  sunset : string;
  moonrise : string;
  moonset : string;
  current_time : string;
  firstLight : string;
  lastLight : string
}.

(** Fix up the data: the derived twilight times, and the moon times of a
    day without moonrise or moonset. *)
Definition fixUp (j : SunJson) : Eff SunJson :=
  fl <- getTwilight (sunrise j) "am" ;;
  ll <- getTwilight (sunset j) "pm" ;;
  let mr := if String.eqb (moonrise j) "-:-" then "0:0" else moonrise j in
  let ms := if String.eqb (moonset j) "-:-" then "23:59" else moonset j in
  ret {| sunrise := sunrise j; sunset := sunset j; moonrise := mr; moonset := ms;
         current_time := current_time j; firstLight := fl; lastLight := ll |}.

Definition twilightDegrees : number := Num 24.
Definition twilightMinutes : number := (Num 24 * Num 4)%js.

Definition imageHeight : number := Num 1080.
Definition imageWidth : number := Num 1920.
Definition centerX : number := (imageWidth / Num 2)%js.
Definition centerY : number := (imageHeight / Num 2 + Num 40)%js.
Definition sunCircleRadius : number := Num 380.
Definition sunRadius : number := Num 70.

Definition backgroundColor : string := "#FFFFFA".
Definition sunArcColor : string := "#E0D000".
Definition sunUpColor : string := "#FFE000".
Definition sunDownColor : string := "#D1AF02".
Definition labelColor : string := "#2020F0".
Definition mediumFontCharHeight : number := Num 60.
Definition mediumFont : string := "60px 'OpenSans-Regular".

(** The colour channels of a [#rrggbb] string, as [myFillRect] reads them:
    [parseInt(rgb.substring(1), 16)], then shifts and masks. *)
Definition colorValue (rgb : string) : Z :=
  let '(v, _, _) :=
    digitRun 16 0 0 (list_ascii_of_string (substring 1 (String.length rgb - 1) rgb)) in
  Z.of_N v.

Definition channels (rgb : string) : Z * Z * Z :=
  let v := colorValue rgb in
  (Z.land (Z.shiftr v 16) 255, Z.land (Z.shiftr v 8) 255, Z.land v 255).

(** Draw the sun on the arc: three discs at the dial radius, in a frame
    rotated to the current time. *)
Definition drawSun (currentTimeAngle sunriseAngle sunsetAngle : number) : Eff unit :=
  ctx Save ;;
  ctx (Translate centerX centerY) ;;
  ctx (Rotate (getRenderAngle currentTimeAngle)) ;;
  ctx BeginPath ;;
  ctx (SetFillStyle backgroundColor) ;;
  ctx (Arc sunCircleRadius (Num 0) (sunRadius + Num 5)%js (Num 0) (Num 2 * Math_PI)%js) ;;
  ctx Fill ;;
  ctx BeginPath ;;
  ctx (SetFillStyle sunArcColor) ;;
  ctx (Arc sunCircleRadius (Num 0) sunRadius (Num 0) (Num 2 * Math_PI)%js) ;;
  ctx Fill ;;
  ctx BeginPath ;;
  ctx (SetFillStyle
         (if (currentTimeAngle >? sunriseAngle)%js && (currentTimeAngle <? sunsetAngle)%js
          then sunUpColor else sunDownColor)) ;;
  ctx (Arc sunCircleRadius (Num 0) (sunRadius - Num 3)%js (Num 0) (Num 2 * Math_PI)%js) ;;
  ctx Fill ;;
  ctx (Rotate (neg (getRenderAngle currentTimeAngle))) ;;
  ctx Restore.

Record Point : Type := { x : number; y : number }.

Definition pt (a b : Z) : Point := {| x := ofZ a; y := ofZ b |}.

Definition labelSlots : list Point :=
  [ pt 400 330; pt 350 450; pt 350 700; pt 400 820;
    pt 1490 330; pt 1540 450; pt 1540 700; pt 1490 820; pt 1440 940 ].

(** The branches of the two slot selections, by their comments in the
    source. *)
Inductive SunriseBranch : Type :=
| BothBefore6AM
| TwilightBefore6AM
| BothAfter6AM.

Inductive SunsetBranch : Type :=
| BothBefore6PM
| TwilightAfter6PM
| SomewhatAfter6PM
| WayPast6PM.

Definition sunriseBranch (sunriseAngle : number) : SunriseBranch :=
  if (sunriseAngle <=? Num 90)%js then BothBefore6AM
  else if (sunriseAngle <? Num 90 + twilightDegrees)%js then TwilightBefore6AM
  else BothAfter6AM.

Definition sunsetBranch (sunsetAngle : number) : SunsetBranch :=
  if (sunsetAngle <=? Num 270 - twilightDegrees)%js then BothBefore6PM
  else if (sunsetAngle <? Num 270)%js then TwilightAfter6PM
  else if (sunsetAngle <=? Num 270 + Num 20)%js then SomewhatAfter6PM
  else WayPast6PM.

(** The slots of (sunrise, AM twilight) and of (sunset, PM twilight). *)
Definition sunriseSlots (sunriseAngle : number) : nat * nat :=
  match sunriseBranch sunriseAngle with
  | BothBefore6AM => (2, 3)
  | TwilightBefore6AM => (1, 2)
  | BothAfter6AM => (0, 1)
  end%nat.

Definition sunsetSlots (sunsetAngle : number) : nat * nat :=
  match sunsetBranch sunsetAngle with
  | BothBefore6PM => (4, 5)
  | TwilightAfter6PM => (5, 6)
  | SomewhatAfter6PM => (6, 7)
  | WayPast6PM => (7, 8)
  end%nat.

Definition slot (i : nat) : Point := nth i labelSlots (pt 0 0).

(** Draw the labels for sunrise, sunset, first light, last light. *)
Definition drawLabels (j : SunJson) (sunriseAngle sunsetAngle : number) : Eff unit :=
  let sunriseXY := slot (fst (sunriseSlots sunriseAngle)) in
  let amTwilightXY := slot (snd (sunriseSlots sunriseAngle)) in
  let sunsetXY := slot (fst (sunsetSlots sunsetAngle)) in
  let pmTwilightXY := slot (snd (sunsetSlots sunsetAngle)) in
  ctx (SetFont mediumFont) ;;
  ctx (SetFillStyle labelColor) ;;
  ctx (CenterText "Sunrise" (x sunriseXY) (y sunriseXY)) ;;
  t <- formatTime (sunrise j) ;;
  ctx (CenterText t (x sunriseXY) (y sunriseXY + mediumFontCharHeight)%js) ;;
  ctx (CenterText "Sunset " (x sunsetXY) (y sunsetXY)) ;;
  t <- formatTime (sunset j) ;;
  ctx (CenterText t (x sunsetXY) (y sunsetXY + mediumFontCharHeight)%js) ;;
  ctx (CenterText "First light" (x amTwilightXY) (y amTwilightXY)) ;;
  t <- formatTime (firstLight j) ;;
  ctx (CenterText t (x amTwilightXY) (y amTwilightXY + mediumFontCharHeight)%js) ;;
  ctx (CenterText "Last light" (x pmTwilightXY) (y pmTwilightXY)) ;;
  t <- formatTime (lastLight j) ;;
  ctx (CenterText t (x pmTwilightXY) (y pmTwilightXY + mediumFontCharHeight)%js).

(** The steps above in the order of [getImage]. *)
Definition drawSunAndLabels (data : SunJson) : Eff unit :=
  j <- fixUp data ;;
  sunriseAngle <- getAngle (sunrise j) ;;
  sunsetAngle <- getAngle (sunset j) ;;
  currentTimeAngle <- getAngle (current_time j) ;;
  drawSun currentTimeAngle sunriseAngle sunsetAngle ;;
  drawLabels j sunriseAngle sunsetAngle.

(** What the context paints: each [Fill] paints the arcs of the current
    path in the fill style of that moment. *)
Record Disc : Type := { radius : number; color : string }.

Fixpoint painted (style : string) (path : list number) (cmds : list CanvasCmd)
  : list Disc :=
  match cmds with
  | [] => []
  | BeginPath :: cs => painted style [] cs
  | SetFillStyle s :: cs => painted s path cs
  | Arc _ _ r _ _ :: cs => painted style (path ++ [r]) cs
  | Fill :: cs =>
      (map (fun r => {| radius := r; color := style |}) path ++ painted style path cs)%list
  | _ :: cs => painted style path cs
  end.

Definition canvasCmds (es : list Event) : list CanvasCmd :=
  flat_map (fun e => match e with Ctx c => [c] | _ => [] end) es.

(** ** [myFillRect] and the image buffer

    The buffer of an image is a [Uint8Array] of four bytes a pixel, row
    after row.  A store into a typed array at an index outside it is
    dropped, and the array never grows.  Positions and sizes are integers,
    as pixel positions are. *)

Module Image.

Record ImageBuffer : Type := {
  width : Z;
  height : Z;
  data : list Z
}.

End Image.

(** [parseInt(s, 16)]: white space, an optional sign, an optional [0x],
    then the longest run of hexadecimal digits; NaN (here [None]) when
    there is no digit.  The result is the integer that the digits denote,
    which is the double that JavaScript returns as long as it is below
    2^53: for up to thirteen digits, the six of a colour among them. *)
Definition parseInt16 (s : string) : option Z :=
  let l := dropWhite (list_ascii_of_string s) in
  let '(negative, l) :=
    match l with
    | c :: r => if isChar 45 c then (true, r)
                else if isChar 43 c then (false, r) else (false, l)
    | [] => (false, l)
    end in
  let l :=
    match l with
    | z :: c :: r => if isChar 48 z && (isChar 120 c || isChar 88 c) then r else l
    | _ => l
    end in
  match digitRun 16 0 0 l with
  | (_, O, _) => None
  | (v, S _, _) => Some (if negative then - Z.of_N v else Z.of_N v)
  end.

(** ToUint32 and ToInt32, that the bit operators apply to their operands;
    NaN becomes 0. *)
Definition toUint32 (v : option Z) : Z :=
  match v with
  | None => 0
  | Some z => z mod 2 ^ 32
  end.

Definition toInt32 (v : option Z) : Z := (toUint32 v + 2 ^ 31) mod 2 ^ 32 - 2 ^ 31.

(** [d[idx] = v] on a [Uint8Array]. *)
Definition store (d : list Z) (idx v : Z) : list Z :=
  if ((0 <=? idx) && (idx <? Z.of_nat (List.length d)))%Z then
    (firstn (Z.to_nat idx) d ++ (v mod 256) :: skipn (S (Z.to_nat idx)) d)%list
  else d.

(** [for (let i = lo; i < hi; i++) body], on the state [s] that the body
    updates. *)
Fixpoint forLoop {S : Type} (n : nat) (i : Z) (body : Z -> S -> S) (s : S) : S :=
  match n with
  | O => s
  | Datatypes.S n' => forLoop n' (i + 1) body (body i s)
  end.

Definition for_ {S : Type} (lo hi : Z) (body : Z -> S -> S) (s : S) : S :=
  forLoop (Z.to_nat (hi - lo)) lo body s.

(** The four bytes of the colour [rgb], as [myFillRect] writes them. *)
Definition rgba (rgb : string) : Z * Z * Z * Z :=
  let colorValue := parseInt16 (substring 1 (String.length rgb - 1) rgb) in
  let r := Z.land (Z.shiftr (toUint32 colorValue) 16) 255 in
  let g := Z.land (Z.shiftr (toUint32 colorValue) 8) 255 in
  let b := Z.land (toInt32 colorValue) 255 in
  let a := 255 in
  (r, g, b, a).

(** Fills a rectangle of the image with a colour, byte by byte. *)
Definition myFillRect (img : Image.ImageBuffer) (x y w h : Z) (rgb : string)
  : Image.ImageBuffer :=
  let '(r, g, b, a) := rgba rgb in
  let filled :=
    for_ y (y + h) (fun i d =>
      for_ x (x + w) (fun j d =>
        let index := (i * Image.width img + j) * 4 in
        let d := store d (index + 0) r in
        let d := store d (index + 1) g in
        let d := store d (index + 2) b in
        let d := store d (index + 3) a in
        d) d) (Image.data img) in
  {| Image.width := Image.width img; Image.height := Image.height img;
     Image.data := filled |}.

(** *** The arcs and the markers of [getImage]

    The day arc, the two twilight arcs and the four marker lines, as the
    calls that [getImage] makes on the context, in order. *)

Module Stroke.

Inductive Cmd : Type :=
| Save
| Restore
| Translate (x y : number)
| Rotate (angle : number)
| BeginPath
| SetStrokeStyle (style : string)
| SetLineWidth (width : number)
| Arc (x y radius startAngle endAngle : number)
| MoveTo (x y : number)
| LineTo (x y : number)
| Stroke.

End Stroke.

Definition sunArcWidth : number := Num 70.
Definition solidTwilightArcColor : string := "#d45b0b".

(** A marker line across the dial circle at [angle]; the two at sunset
    also undo the translation before they restore the context. *)
Definition drawMarker (angle : number) (undoTranslate : bool) : list Stroke.Cmd :=
  [ Stroke.Save;
    Stroke.Translate centerX centerY;
    Stroke.SetStrokeStyle labelColor;
    Stroke.SetLineWidth (Num 3);
    Stroke.Rotate (getRenderAngle angle);
    Stroke.BeginPath;
    Stroke.MoveTo (sunCircleRadius - Num 50)%js (Num 0);
    Stroke.LineTo (sunCircleRadius + Num 80)%js (Num 0);
    Stroke.Stroke;
    Stroke.Rotate (neg (getRenderAngle angle)) ]
  ++ (if undoTranslate then [Stroke.Translate (neg centerX) (neg centerY)] else [])
  ++ [ Stroke.Restore ].

Definition drawArcs (sunriseAngle sunsetAngle : number) : list Stroke.Cmd :=
  let amTwilightAngle := (sunriseAngle - twilightDegrees)%js in
  let pmTwilightAngle := (sunsetAngle + twilightDegrees)%js in
  (* Draw the sun up arc *)
  [ Stroke.SetLineWidth sunArcWidth;
    Stroke.SetStrokeStyle sunArcColor;
    Stroke.BeginPath;
    Stroke.Arc centerX centerY sunCircleRadius
               (getRenderAngle sunriseAngle) (getRenderAngle sunsetAngle);
    Stroke.Stroke;
  (* Draw the AM twilight arc *)
    Stroke.SetStrokeStyle solidTwilightArcColor;
    Stroke.BeginPath;
    Stroke.Arc centerX centerY sunCircleRadius
               (getRenderAngle amTwilightAngle) (getRenderAngle sunriseAngle);
    Stroke.Stroke ]
  (* Draw a line at sunrise, and one at AM twilight *)
  ++ drawMarker sunriseAngle false
  ++ drawMarker amTwilightAngle false
  (* Draw PM twilight arc *)
  ++ [ Stroke.SetStrokeStyle solidTwilightArcColor;
       Stroke.BeginPath;
       Stroke.SetLineWidth sunArcWidth;
       Stroke.Arc centerX centerY sunCircleRadius
                  (getRenderAngle sunsetAngle) (getRenderAngle pmTwilightAngle);
       Stroke.Stroke ]
  (* Draw a long tick mark at sunset, and one at PM twilight *)
  ++ drawMarker sunsetAngle true
  ++ drawMarker pmTwilightAngle true.

(** *** What the context strokes

    The 2D context keeps a drawing state, of which the stroke style, the
    line width and the transformation matter here, a stack of saved states
    and a current path.  [save] pushes the state and [restore] pops it
    (nothing happens on an empty stack); the path is no part of the state.
    [arc], [moveTo] and [lineTo] add to the path, in the coordinates of the
    transformation current at the call; [stroke] draws the path with the
    style and the width current at the call. *)

Module Canvas.

Inductive Transform : Type :=
| Translated (x y : number)
| Rotated (angle : number).

Record State : Type := {
  strokeStyle : string;
  lineWidth : number;
  transform : list Transform
}.

Inductive Segment : Type :=
| ArcOf (t : list Transform) (x y radius startAngle endAngle : number)
| MoveTo (t : list Transform) (x y : number)
| LineTo (t : list Transform) (x y : number).

Record Stroked : Type := {
  path : list Segment;
  style : string;
  width : number
}.

Record Context : Type := {
  state : State;
  saved : list State;
  currentPath : list Segment;
  strokes : list Stroked
}.

Definition setState (c : Context) (st : State) : Context :=
  {| state := st; saved := saved c; currentPath := currentPath c; strokes := strokes c |}.

Definition setPath (c : Context) (p : list Segment) : Context :=
  {| state := state c; saved := saved c; currentPath := p; strokes := strokes c |}.

Definition transformed (c : Context) (t : Transform) : Context :=
  setState c {| strokeStyle := strokeStyle (state c);
                lineWidth := lineWidth (state c);
                transform := transform (state c) ++ [t] |}.

Definition step (c : Context) (cmd : Stroke.Cmd) : Context :=
  match cmd with
  | Stroke.Save =>
      {| state := state c; saved := state c :: saved c;
         currentPath := currentPath c; strokes := strokes c |}
  | Stroke.Restore =>
      match saved c with
      | st :: rest =>
          {| state := st; saved := rest;
             currentPath := currentPath c; strokes := strokes c |}
      | [] => c
      end
  | Stroke.Translate x y => transformed c (Translated x y)
  | Stroke.Rotate angle => transformed c (Rotated angle)
  | Stroke.BeginPath => setPath c []
  | Stroke.SetStrokeStyle v =>
      setState c {| strokeStyle := v;
                    lineWidth := lineWidth (state c);
                    transform := transform (state c) |}
  | Stroke.SetLineWidth v =>
      setState c {| strokeStyle := strokeStyle (state c);
                    lineWidth := v;
                    transform := transform (state c) |}
  | Stroke.Arc x y radius startAngle endAngle =>
      setPath c (currentPath c
                 ++ [ArcOf (transform (state c)) x y radius startAngle endAngle])
  | Stroke.MoveTo x y =>
      setPath c (currentPath c ++ [MoveTo (transform (state c)) x y])
  | Stroke.LineTo x y =>
      setPath c (currentPath c ++ [LineTo (transform (state c)) x y])
  | Stroke.Stroke =>
      {| state := state c; saved := saved c; currentPath := currentPath c;
         strokes := strokes c
                    ++ [{| path := currentPath c;
                           style := strokeStyle (state c);
                           width := lineWidth (state c) |}] |}
  end.

(** What a sequence of calls strokes, in order, on a context that starts
    untransformed with style [style0] and width [width0]. *)
Definition stroked (style0 : string) (width0 : number) (cmds : list Stroke.Cmd)
  : list Stroked :=
  strokes (fold_left step cmds
             {| state := {| strokeStyle := style0; lineWidth := width0; transform := [] |};
                saved := []; currentPath := []; strokes := [] |}).

End Canvas.

(** ** [SunBuilder.CreateImages] and the driver [run]

    [CreateImages] awaits [getImage] and hands the image to the writer;
    [run] calls it for five days.  What [getImage] and [saveFile] do is
    outside: each is given by its outcome, a value returned or a value
    thrown, and the calls made on the collaborators are recorded in
    order. *)

Module Builder.

Inductive Thrown : Type :=
| ErrorObject (stack : string)     (* [e instanceof Error], with [e.stack] *)
| OtherValue (text : string).      (* anything else, with its text *)

Inductive Outcome (A : Type) : Type :=
| Returned (a : A)
| Threw (e : Thrown).

Arguments Returned {A} a.
Arguments Threw {A} e.

Record BufferRet : Type := { data : list Z; width : Z; height : Z }.

Record ImageResult : Type := { imageType : string; imageData : option BufferRet }.

(** The arguments of one call of [getImage]. *)
Record Request : Type := {
  location : string; lat : string; lon : string;
  apiKey : string; timeZone : string; dateStr : string
}.

Inductive Call : Type :=
| GetImage (request : Request)
| SaveFile (fileName : string) (bytes : list Z)
| LogInfo (message : string)
| LogWarn (message : string)
| LogError (message : string)
| ProcessExit (code : Z).

End Builder.

Import Builder.

Definition CreateImages
    (getImage : Request -> Outcome (option ImageResult))
    (saveFile : string -> list Z -> Outcome unit)
    (location fileName lat lon apiKey timeZone dateStr : string)
  : bool * list Call :=
  let request := {| location := location; lat := lat; lon := lon;
                    apiKey := apiKey; timeZone := timeZone; dateStr := dateStr |} in
  let caught (e : Thrown) : string :=
    match e with
    | ErrorObject stack => "SunBuilder CreateImages: " ++ stack
    | OtherValue text => "SunBuilder CreateImages: Exception: " ++ text
    end in
  match getImage request with
  | Threw e => (false, [GetImage request; LogError (caught e)])
  | Returned result =>
      match result with
      | Some {| imageData := Some buffer |} =>
          match saveFile fileName (data buffer) with
          | Threw e =>
              (false, [GetImage request;
                       LogInfo ("SunBuilder CreateImages: Writing: " ++ fileName);
                       SaveFile fileName (data buffer); LogError (caught e)])
          | Returned _ =>
              (true, [GetImage request;
                      LogInfo ("SunBuilder CreateImages: Writing: " ++ fileName);
                      SaveFile fileName (data buffer)])
          end
      | _ =>
          (false, [GetImage request;
                   LogWarn "SunBuilder CreateImages: No image available"])
      end
  end.

(** [success = success && await sunBuilder.CreateImages(...)]: the call is
    made only while [success] holds. *)
Definition andAwait (success : bool * list Call) (next : bool * list Call)
  : bool * list Call :=
  let '(ok, calls) := success in
  if ok then (fst next, calls ++ snd next)%list else (false, calls).

(** The file names and dates of the five images of [run]. *)
Definition runImages : list (string * string) :=
  [ ("OnsetSun.jpg", EmptyString);
    ("OnsetSun-June.jpg", "2021-06-21");
    ("OnsetSun-dec.jpg", "2021-12-21");
    ("OnsetSun-sep.jpg", "2021-09-01");
    ("OnsetSun-mar.jpg", "2021-03-08") ].

(** [run], from the value of the environment variable on: the exit code,
    or the code returned, and the calls made. *)
Definition run
    (IPGEOLOACATION_API_KEY : option string)
    (getImage : Request -> Outcome (option ImageResult))
    (saveFile : string -> list Z -> Outcome unit)
  : Z * list Call :=
  let timeZone := "America/New_York" in
  match IPGEOLOACATION_API_KEY with
  | None =>
      (1, [LogError "No url specified in env IPGEOLOACATION_API_KEY"; ProcessExit 1])
  | Some key =>
      let create (fileName dateStr : string) :=
        CreateImages getImage saveFile "Onset, MA" fileName "42.4" "-71.6" key timeZone dateStr in
      let success := (true, []) in
      let success := andAwait success (create "OnsetSun.jpg" EmptyString) in
      let success := andAwait success (create "OnsetSun-June.jpg" "2021-06-21") in
      let success := andAwait success (create "OnsetSun-dec.jpg" "2021-12-21") in
      let success := andAwait success (create "OnsetSun-sep.jpg" "2021-09-01") in
      let success := andAwait success (create "OnsetSun-mar.jpg" "2021-03-08") in
      let '(ok, calls) := success in
      (if ok then 0 else 1,
       calls ++ [LogInfo ("test.ts: Done: " ++ (if ok then "successfully" else "failed"))])%list
  end.

(** ** Time strings and their reading, for the statements below *)

(** A decimal integer as a string, and padded to two digits. *)
Definition intString (z : Z) : string :=
  if (z <? 0)%Z then "-" ++ digits (Z.abs_N z) else digits (Z.to_N z).

Definition pad2 (z : Z) : string :=
  if (z <? 10)%Z then "0" ++ intString z else intString z.

(** The time string HH:MM of hour [h] and minute [m]. *)
Definition hhmm (h m : Z) : string := pad2 h ++ ":" ++ pad2 m.

(** The first two colon-separated fields of [s] read as the numbers [h]
    and [m]; further fields may follow. *)
Definition reads (s : string) (h m : number) : Prop :=
  exists f0 f1 rest,
    split colon s = f0 :: f1 :: rest /\
    Number (Some f0) = h /\ Number (Some f1) = m.

(** A malformed time string, in the reading of the validity test: fewer
    than two colon-separated fields, an hour or minute field that is not a
    number ([Number] gives NaN, which it does not for an empty or a blank
    field), or an hour or a minute out of its range. *)
Definition outside (a lo hi : number) : Prop :=
  lt a lo = true \/ gt a hi = true.

Definition malformed (s : string) : Prop :=
  let fs := split colon s in
  (List.length fs < 2)%nat \/
  Number fs.[0] = NaN \/ Number fs.[1] = NaN \/
  outside (Number fs.[0]) (Num 0) (Num 23) \/
  outside (Number fs.[1]) (Num 0) (Num 59).



(** A time string that cannot be read as a time of day: fewer than two
    colon-separated fields, an hour or minute field that is not a number
    ([Number] gives NaN), an hour of 24 or more or of -1 or less, or a
    minute of 60 or more or of -1 or less.  The bounds are a whole unit
    outside the range: a bound that the value of a field meets, the double
    that [Number] returns meets too, and it is then out of the range. *)
Definition beyond (a lo hi : number) : Prop :=
  le a lo = true \/ ge a hi = true.

Definition unreadable (s : string) : Prop :=
  let fs := split colon s in
  (List.length fs < 2)%nat \/
  Number fs.[0] = NaN \/ Number fs.[1] = NaN \/
  beyond (Number fs.[0]) (Num (-1)) (Num 24) \/
  beyond (Number fs.[1]) (Num (-1)) (Num 60).

(** The hour of the 12-hour clock. *)
Definition hour12 (h : Z) : Z := if (Z.rem h 12 =? 0)%Z then 12 else Z.rem h 12.

(** Degrees to radians, as [getRenderAngle] converts them. *)
Definition radians (degrees : Q) : number := (num degrees * Math_PI / Num 180)%js.

(** The hour and minute that [getTwilight] computes from hour [h] and
    minute [m], as integers. *)
Definition twilightHM (isAm : bool) (h m : Z) : Z * Z :=
  let hour := hour12 h in
  if isAm then
    if (36 <=? m)%Z then (hour - 1, m - 36)%Z else (hour - 2, m + 24)%Z
  else
    if (m <? 36)%Z then (hour + 1, m + 24)%Z else (hour + 2, m - 36)%Z.

(** Minutes since midnight of the time a string carries, and a number of
    minutes brought back into the day. *)
Definition minutesOf (s : string) : number :=
  let fs := split colon s in
  (Number fs.[0] * Num 60 + Number fs.[1])%js.

Definition wrapDay (minutes : Q) : Q := Qmod minutes 1440.

(** Adding 96 minutes again, modulo 24 hours. *)
Definition reAdd96 (minutes : number) : number :=
  match minutes with
  | Num q => num (wrapDay (q + 96))
  | other => other
  end.

(** A day of the comment in [getImage]: sunrise 06:20, sunset 19:04. *)
Definition sampleDay : SunJson :=
  {| sunrise := "06:20"; sunset := "19:04"; moonrise := "-:-"; moonset := "-:-";
     current_time := "08:21:14.988";
     firstLight := EmptyString; lastLight := EmptyString |}.

(** Byte [c] (0 to 3) of a pixel of colour [(r, g, b, a)]. *)
Definition channel (color : Z * Z * Z * Z) (c : Z) : Z :=
  let '(r, g, b, a) := color in
  if (c =? 0)%Z then r else if (c =? 1)%Z then g else if (c =? 2)%Z then b else a.

(** Byte [k] of a buffer. *)
Definition byteAt (d : list Z) (k : Z) : Z := nth (Z.to_nat k) d 0%Z.

(** Pixel number [p], counted row after row, is one that the loops of
    [myFillRect] visit: [p = i * width + j] for a row [i] and a column [j]
    of the rectangle. *)
Definition visited (width x y w h p : Z) : Prop :=
  exists i j : Z, (y <= i < y + h)%Z /\ (x <= j < x + w)%Z /\ p = (i * width + j)%Z.

(** The value of [Math.PI], and a full turn in radians. *)
Definition Math_PI_value : Q := 884279719003555 # 281474976710656.

Definition fullTurn : Q := (2 * Math_PI_value)%Q.

(** Minutes since midnight of hour [h] and minute [m]. *)
Definition minuteOfDay (h m : Z) : Z := (60 * h + m)%Z.

(** Is a canvas call a label? *)
Definition isCenterText (c : CanvasCmd) : bool :=
  match c with CenterText _ _ _ => true | _ => false end.

(** The direction on the canvas of dial angle [a], in degrees from the X
    axis: the degrees that [getRenderAngle] converts to radians. *)
Definition renderDegrees (a : Q) : Q := Qmod (a + 180 - 90) 360.

(** An arc of the dial circle, centre (960, 580) and radius 380, stroked
    70 wide in [color]; and a marker line across the circle, from 330 to
    460 along the X axis of a context moved to the centre and turned by
    [angle], stroked 3 wide in the label colour. *)
Definition dialArc (color : string) (startAngle endAngle : number) : Canvas.Stroked :=
  {| Canvas.path := [Canvas.ArcOf [] (Num 960) (Num 580) (Num 380) startAngle endAngle];
     Canvas.style := color;
     Canvas.width := Num 70 |}.

Definition markerLine (angle : number) : Canvas.Stroked :=
  let t := [Canvas.Translated (Num 960) (Num 580); Canvas.Rotated angle] in
  {| Canvas.path := [Canvas.MoveTo t (Num 330) (Num 0); Canvas.LineTo t (Num 460) (Num 0)];
     Canvas.style := "#2020F0";
     Canvas.width := Num 3 |}.

(** The angles [startAngle] and [endAngle] of an arc are the radians of
    two directions in [0, 360) degrees, the second [degrees] after the
    first. *)
Definition sweeps (startAngle endAngle : number) (degrees : Q) : Prop :=
  exists x y : Q,
    startAngle = radians x /\ endAngle = radians y /\
    (0 <= x < 360 /\ 0 <= y < 360 /\ y - x == degrees)%Q.

(** The dates for which [getImage] was called, and the files handed to
    the writer, among the calls of a run. *)
Definition requestedDates (calls : list Call) : list string :=
  flat_map (fun c => match c with GetImage r => [dateStr r] | _ => [] end) calls.

Definition savedFiles (calls : list Call) : list string :=
  flat_map (fun c => match c with SaveFile f _ => [f] | _ => [] end) calls.

Definition problemsLogged (calls : list Call) : nat :=
  List.length (filter (fun c => match c with LogWarn _ | LogError _ => true | _ => false end)
                      calls).

(** The elements of a list up to and including the first that fails. *)
Fixpoint upToFirstFailure {A : Type} (ok : A -> bool) (l : list A) : list A :=
  match l with
  | [] => []
  | a :: rest => a :: (if ok a then upToFirstFailure ok rest else [])
  end.

(** The display string of minute [t] of the day. *)
Definition displayed (t : Z) : string :=
  result (formatTime (hhmm (t / 60) (t mod 60))).

(** No string occurs twice in the list. *)
Fixpoint nodupb (l : list string) : bool :=
  match l with
  | [] => true
  | a :: rest => negb (existsb (String.eqb a) rest) && nodupb rest
  end.

(** ** Decision procedures for the proofs *)

(** [P] on the [n] integers from [lo] on. *)
Definition allZ (lo : Z) (n : nat) (P : Z -> bool) : bool :=
  forallb (fun i => P (lo + Z.of_nat i)%Z) (seq 0 n).

(** Equality of numbers as terms. *)
Definition numberEqb (a b : number) : bool :=
  match a, b with
  | NaN, NaN => true
  | Inf s, Inf t => Bool.eqb s t
  | Num p, Num q => (Qnum p =? Qnum q)%Z && (Qden p =? Qden q)%positive
  | _, _ => false
  end.

(** Does [c] occur in [s]? *)
Fixpoint hasChar (c : ascii) (s : string) : bool :=
  match s with
  | EmptyString => false
  | String d s' => Ascii.eqb d c || hasChar c s'
  end.

(** The first light of sunrise [h]:[m], 96 minutes added again, is the
    sunrise. *)
Definition roundTripOK (h m : Z) : bool :=
  numberEqb (reAdd96 (minutesOf (result (getTwilight (hhmm h m) "am"))))
            (minutesOf (hhmm h m)).

(** A closed statement, settled by running the functions. *)
Ltac by_evaluation := repeat split; vm_compute; reflexivity.

(** * Properties *)

(** ** Numbers *)

Lemma Qred_inject_Z (z : Z) : Qred (inject_Z z) = inject_Z z.
Proof.
  unfold Qred, inject_Z.
  generalize (Z.ggcd_gcd z 1) (Z.ggcd_correct_divisors z 1).
  destruct (Z.ggcd z 1) as [g [r1 r2]]. simpl.
  rewrite Z.gcd_1_r. intros Hg [H1 H2]. subst g.
  rewrite Z.mul_1_l in H1, H2. subst. reflexivity.
Qed.

Lemma num_eq (p q : Q) : (p == q)%Q -> num p = num q.
Proof.
  intros H. unfold num. f_equal. now apply Qred_complete.
Qed.

Lemma num_ofZ (q : Q) (z : Z) : (q == inject_Z z)%Q -> num q = ofZ z.
Proof.
  intros H. unfold num, ofZ. f_equal.
  rewrite <- (Qred_inject_Z z). now apply Qred_complete.
Qed.

Lemma num_Qred (q : Q) : num (Qred q) = num q.
Proof. apply num_eq, Qred_correct. Qed.

Lemma Qltb_lt (p q : Q) : Qltb p q = true <-> (p < q)%Q.
Proof.
  unfold Qltb. rewrite negb_true_iff. split; intros H.
  - apply Qnot_le_lt. intros Hle. apply Qle_bool_iff in Hle. congruence.
  - destruct (Qle_bool q p) eqn:E; [|reflexivity].
    apply Qle_bool_iff in E. exfalso. now apply (Qlt_not_le p q).
Qed.

Lemma Qltb_ge (p q : Q) : Qltb p q = false <-> (q <= p)%Q.
Proof.
  unfold Qltb. rewrite negb_false_iff. apply Qle_bool_iff.
Qed.

Lemma lt_Num (p q : Q) : lt (Num p) (Num q) = true <-> (p < q)%Q.
Proof. apply Qltb_lt. Qed.

Lemma lt_Num_false (p q : Q) : lt (Num p) (Num q) = false <-> (q <= p)%Q.
Proof. apply Qltb_ge. Qed.

Lemma le_Num (p q : Q) : le (Num p) (Num q) = true <-> (p <= q)%Q.
Proof.
  unfold le. rewrite orb_true_iff. simpl. rewrite Qltb_lt, Qeq_bool_iff.
  split.
  - intros [H | H]; [now apply Qlt_le_weak | rewrite H; apply Qle_refl].
  - intros H. apply Qle_lt_or_eq in H. tauto.
Qed.

Lemma le_Num_false (p q : Q) : le (Num p) (Num q) = false <-> (q < p)%Q.
Proof.
  split; intros H.
  - apply Qnot_le_lt. intros Hle. apply le_Num in Hle. congruence.
  - destruct (le (Num p) (Num q)) eqn:E; [|reflexivity].
    apply le_Num in E. exfalso. now apply (Qlt_not_le q p).
Qed.

Lemma Qzero_false (q : Q) : ~ (q == 0)%Q -> Qzero q = false.
Proof.
  intros H. unfold Qzero. destruct (Qeq_bool q 0) eqn:E; [|reflexivity].
  apply Qeq_bool_iff in E. contradiction.
Qed.

Lemma inject_Z_lt (a b : Z) : (inject_Z a < inject_Z b)%Q <-> (a < b)%Z.
Proof. now rewrite <- Zlt_Qlt. Qed.

Lemma inject_Z_le (a b : Z) : (inject_Z a <= inject_Z b)%Q <-> (a <= b)%Z.
Proof. now rewrite <- Zle_Qle. Qed.

Lemma lt_ofZ (a b : Z) : lt (ofZ a) (ofZ b) = (a <? b)%Z.
Proof.
  destruct (Z.ltb_spec a b) as [H | H].
  - apply lt_Num. now apply inject_Z_lt.
  - apply lt_Num_false. now apply inject_Z_le.
Qed.

Lemma le_ofZ (a b : Z) : le (ofZ a) (ofZ b) = (a <=? b)%Z.
Proof.
  destruct (Z.leb_spec a b) as [H | H].
  - apply le_Num. now apply inject_Z_le.
  - apply le_Num_false. now apply inject_Z_lt.
Qed.

Lemma strictEq_ofZ (a b : Z) : strictEq (ofZ a) (ofZ b) = (a =? b)%Z.
Proof.
  simpl. unfold Qeq_bool. simpl. now rewrite !Z.mul_1_r.
Qed.

Lemma add_ofZ (a b : Z) : add (ofZ a) (ofZ b) = ofZ (a + b).
Proof.
  simpl. apply num_ofZ. now rewrite inject_Z_plus.
Qed.

Lemma neg_ofZ (a : Z) : neg (ofZ a) = ofZ (- a).
Proof.
  simpl. apply num_ofZ. now rewrite inject_Z_opp.
Qed.

Lemma sub_ofZ (a b : Z) : sub (ofZ a) (ofZ b) = ofZ (a - b).
Proof.
  unfold sub. now rewrite neg_ofZ, add_ofZ.
Qed.

Lemma mul_ofZ (a b : Z) : mul (ofZ a) (ofZ b) = ofZ (a * b).
Proof.
  simpl. apply num_ofZ. now rewrite inject_Z_mult.
Qed.

(** Comparisons and sums of integers, for [autorewrite]. *)
Create Rewrite HintDb ofZ.
#[local] Hint Rewrite lt_ofZ le_ofZ strictEq_ofZ add_ofZ sub_ofZ mul_ofZ : ofZ.

Lemma div_Num (p q : Q) : ~ (q == 0)%Q -> div (Num p) (Num q) = num (p / q).
Proof.
  intros H. unfold div. now rewrite Qzero_false.
Qed.

Lemma rem_Num (p q : Q) : ~ (q == 0)%Q -> rem (Num p) (Num q) = num (Qrem p q).
Proof.
  intros H. unfold rem. now rewrite Qzero_false.
Qed.

Lemma add_num (p q : Q) : add (num p) (num q) = num (p + q).
Proof.
  unfold num at 1 2. unfold add. apply num_eq. now rewrite !Qred_correct.
Qed.

Lemma mul_num (p q : Q) : mul (num p) (num q) = num (p * q).
Proof.
  unfold num at 1 2. unfold mul. apply num_eq. now rewrite !Qred_correct.
Qed.

Lemma Qtrunc_ofZ (a : Z) (b : positive) :
  Qtrunc (inject_Z a / inject_Z (Zpos b)) = Z.quot a (Zpos b).
Proof.
  unfold Qtrunc, Qdiv, Qinv, Qmult, inject_Z. simpl.
  now rewrite Z.mul_1_r.
Qed.

Lemma rem_ofZ (a : Z) (b : positive) :
  rem (ofZ a) (ofZ (Zpos b)) = ofZ (Z.rem a (Zpos b)).
Proof.
  unfold rem, ofZ. rewrite Qzero_false.
  - apply num_ofZ. unfold Qrem. rewrite Qtrunc_ofZ.
    unfold Qminus. rewrite <- inject_Z_mult, <- inject_Z_opp, <- inject_Z_plus.
    apply inject_Z_injective.
    pose proof (Z.quot_rem' a (Zpos b)). lia.
  - intros H. discriminate H.
Qed.

(** ** Checking a finite range of integers by evaluation *)

Lemma allZ_spec (lo : Z) (n : nat) (P : Z -> bool) :
  allZ lo n P = true ->
  forall z, (lo <= z < lo + Z.of_nat n)%Z -> P z = true.
Proof.
  unfold allZ. rewrite forallb_forall. intros H z Hz.
  replace z with (lo + Z.of_nat (Z.to_nat (z - lo)))%Z by lia.
  apply H. apply in_seq. lia.
Qed.

Lemma numberEqb_eq (a b : number) : numberEqb a b = true -> a = b.
Proof.
  destruct a as [| s | [pn pd]], b as [| t | [qn qd]]; simpl; try discriminate; auto.
  - intros H. apply Bool.eqb_prop in H. now subst.
  - rewrite andb_true_iff, Z.eqb_eq, Pos.eqb_eq. intros [-> ->]. reflexivity.
Qed.

(** ** Printing and reading small integers *)

Lemma toString_int (z : Z) :
  (-2 <= z < 60)%Z -> toString (ofZ z) = intString z.
Proof.
  intros Hz. apply String.eqb_eq.
  apply (allZ_spec (-2) 62 (fun z => String.eqb (toString (ofZ z)) (intString z))).
  - vm_compute. reflexivity.
  - lia.
Qed.

Lemma pad2_length (z : Z) : (0 <= z < 100)%Z -> String.length (pad2 z) = 2%nat.
Proof.
  intros Hz. apply Nat.eqb_eq.
  apply (allZ_spec 0 100 (fun z => Nat.eqb (String.length (pad2 z)) 2)).
  - vm_compute. reflexivity.
  - lia.
Qed.

Lemma Number_pad2 (z : Z) : (0 <= z < 100)%Z -> Number (Some (pad2 z)) = ofZ z.
Proof.
  intros Hz. apply numberEqb_eq.
  apply (allZ_spec 0 100 (fun z => numberEqb (Number (Some (pad2 z))) (ofZ z))).
  - vm_compute. reflexivity.
  - lia.
Qed.

(** ** Splitting *)

Lemma split_no_sep (c : ascii) (s : string) :
  hasChar c s = false -> split c s = [s].
Proof.
  induction s as [| d s IH]; simpl; [reflexivity|].
  rewrite orb_false_iff. intros [Hd Hs]. rewrite Hd, (IH Hs). reflexivity.
Qed.

Lemma split_app (c : ascii) (s t : string) :
  hasChar c s = false ->
  split c (s ++ String c t) = s :: split c t.
Proof.
  induction s as [| d s IH]; simpl.
  - intros _. now rewrite Ascii.eqb_refl.
  - rewrite orb_false_iff. intros [Hd Hs]. rewrite Hd, (IH Hs). reflexivity.
Qed.

Lemma split_nonempty (c : ascii) (s : string) : split c s <> [].
Proof.
  destruct s as [| d s]; simpl; [discriminate|].
  destruct (Ascii.eqb d c); [discriminate|].
  destruct (split c s); discriminate.
Qed.

Lemma pad2_no_colon (z : Z) : (-2 <= z < 100)%Z -> hasChar colon (pad2 z) = false.
Proof.
  intros Hz. apply negb_true_iff.
  apply (allZ_spec (-2) 102 (fun z => negb (hasChar colon (pad2 z)))).
  - vm_compute. reflexivity.
  - lia.
Qed.

Lemma split_hhmm (h m : Z) :
  (-2 <= h < 100)%Z -> (-2 <= m < 100)%Z ->
  split colon (hhmm h m) = [pad2 h; pad2 m].
Proof.
  intros Hh Hm. unfold hhmm.
  change (":" ++ pad2 m)%string with (String colon (pad2 m)).
  rewrite split_app by now apply pad2_no_colon.
  rewrite split_no_sep by now apply pad2_no_colon. reflexivity.
Qed.

(** Every time string HH:MM reads as its hour and minute. *)
Lemma hhmm_reads (h m : Z) :
  (0 <= h <= 23)%Z -> (0 <= m <= 59)%Z -> reads (hhmm h m) (ofZ h) (ofZ m).
Proof.
  intros Hh Hm. exists (pad2 h), (pad2 m), [].
  rewrite split_hhmm by lia. rewrite !Number_pad2 by lia. auto.
Qed.

(** ** The validity test *)

Lemma invalidTime_reads (f0 f1 : string) (rest : list string) (h m : Q) :
  Number (Some f0) = Num h -> Number (Some f1) = Num m ->
  (0 <= h <= 23)%Q -> (0 <= m <= 59)%Q ->
  invalidTime (f0 :: f1 :: rest) = false.
Proof.
  intros H0 H1 [Hh0 Hh1] [Hm0 Hm1]. unfold invalidTime, index. simpl nth_error.
  rewrite H0, H1. unfold gt. simpl isNaN. simpl Nat.ltb.
  rewrite !orb_false_l.
  rewrite (proj2 (lt_Num_false h 0) Hh0), (proj2 (lt_Num_false 23 h) Hh1).
  rewrite (proj2 (lt_Num_false m 0) Hm0), (proj2 (lt_Num_false 59 m) Hm1).
  reflexivity.
Qed.

(** When the test passes, both fields are there and finite, and in range. *)
Lemma invalidTime_false (fs : list string) :
  invalidTime fs = false ->
  exists f0 f1 rest h m,
    fs = f0 :: f1 :: rest /\
    Number (Some f0) = Num h /\ Number (Some f1) = Num m /\
    (0 <= h <= 23)%Q /\ (0 <= m <= 59)%Q.
Proof.
  unfold invalidTime, gt. rewrite !orb_false_iff.
  intros [[[[[[Hlen Hn0] Hn1] Hl0] Hg0] Hl1] Hg1].
  destruct fs as [| f0 [| f1 rest]]; try discriminate Hlen.
  unfold index in *. simpl nth_error in *.
  destruct (Number (Some f0)) as [| s0 | h] eqn:E0; try discriminate Hn0.
  { destruct s0; discriminate. }
  destruct (Number (Some f1)) as [| s1 | m] eqn:E1; try discriminate Hn1.
  { destruct s1; discriminate. }
  exists f0, f1, rest, h, m.
  apply lt_Num_false in Hl0, Hg0, Hl1, Hg1. repeat split; assumption || reflexivity.
Qed.

(** ** [getAngle] *)

Lemma getAngle_reads (s : string) (h m : Q) :
  reads s (Num h) (Num m) -> (0 <= h <= 23)%Q -> (0 <= m <= 59)%Q ->
  getAngle s = (num (h * 15 + m / 4), []).
Proof.
  intros (f0 & f1 & rest & Hs & H0 & H1) Hh Hm. unfold getAngle.
  rewrite Hs, (invalidTime_reads f0 f1 rest h m H0 H1 Hh Hm).
  unfold index. simpl nth_error. rewrite H0, H1. unfold ret. f_equal.
  rewrite div_Num by (intros H; discriminate H).
  change (mul (Num h) (Num 15)) with (num (h * 15)).
  apply add_num.
Qed.

Lemma getAngle_invalid (s : string) :
  invalidTime (split colon s) = true ->
  getAngle s =
    (Num 0, [Warn ("SunImage: getAngle() failed on input " ++ dquote ++ s ++ dquote)]).
Proof.
  intros H. unfold getAngle. rewrite H. reflexivity.
Qed.

(** The angle is always a finite number of degrees in [0, 360). *)
Lemma getAngle_range (s : string) :
  exists q, result (getAngle s) = Num q /\ (0 <= q < 360)%Q.
Proof.
  destruct (invalidTime (split colon s)) eqn:E.
  - rewrite (getAngle_invalid s E). exists 0%Q. split; [reflexivity | lra].
  - destruct (invalidTime_false _ E) as (f0 & f1 & rest & h & m & Hs & H0 & H1 & Hh & Hm).
    rewrite (getAngle_reads s h m); [| now exists f0, f1, rest | assumption..].
    exists (Qred (h * 15 + m / 4)). split; [reflexivity|].
    rewrite Qred_correct.
    assert (Hq : (m / 4 == m * (1 # 4))%Q) by reflexivity.
    rewrite Hq. lra.
Qed.

Lemma events_getAngle (s : string) : canvasCmds (events (getAngle s)) = [].
Proof.
  unfold getAngle. destruct (invalidTime (split colon s)); reflexivity.
Qed.

(** ** [formatTime] and [getTwilight] on integer hours and minutes *)

Lemma range_Q (z lo hi : Z) :
  (lo <= z <= hi)%Z -> (inject_Z lo <= inject_Z z <= inject_Z hi)%Q.
Proof.
  intros [H1 H2]. split; now apply inject_Z_le.
Qed.

Lemma hour12_range (h : Z) : (0 <= h <= 23)%Z -> (1 <= hour12 h <= 12)%Z.
Proof.
  intros Hh. unfold hour12.
  pose proof (Z.rem_bound_pos h 12 ltac:(lia) ltac:(lia)).
  destruct (Z.eqb_spec (Z.rem h 12) 0); lia.
Qed.

Lemma hour12_number (h : Z) :
  (if (ofZ h mod Num 12 =? Num 0)%js then Num 12 else (ofZ h mod Num 12)%js)
  = ofZ (hour12 h).
Proof.
  change (Num 12) with (ofZ 12). change (Num 0) with (ofZ 0).
  rewrite rem_ofZ, strictEq_ofZ. unfold hour12.
  now destruct (Z.rem h 12 =? 0)%Z.
Qed.

Lemma minStr_pad2 (m : Z) :
  (-2 <= m < 60)%Z ->
  (if (ofZ m <? Num 10)%js then "0" ++ toString (ofZ m) else toString (ofZ m))%string
  = pad2 m.
Proof.
  intros Hm. change (Num 10) with (ofZ 10).
  rewrite lt_ofZ, toString_int by assumption. reflexivity.
Qed.

Lemma formatTime_invalid (s : string) :
  invalidTime (split colon s) = true ->
  formatTime s =
    (EmptyString, [Warn ("SunImage: formatTime() failed on input " ++ dquote ++ s)]).
Proof.
  intros H. unfold formatTime. rewrite H. reflexivity.
Qed.

Section IntegerTime.

(** A time string that reads as the integers [h], an hour of the day,
    and [m], a minute of the hour. *)
Variables (s : string) (h m : Z).
Hypothesis Hreads : reads s (ofZ h) (ofZ m).
Hypothesis Hhour : (0 <= h <= 23)%Z.
Hypothesis Hminute : (0 <= m <= 59)%Z.

Lemma fields_integer :
  exists f0 f1 rest,
    split colon s = f0 :: f1 :: rest /\
    Number (Some f0) = ofZ h /\ Number (Some f1) = ofZ m /\
    invalidTime (f0 :: f1 :: rest) = false.
Proof.
  destruct Hreads as (f0 & f1 & rest & Hs & H0 & H1).
  exists f0, f1, rest. repeat split; try assumption.
  exact (invalidTime_reads f0 f1 rest (inject_Z h) (inject_Z m) H0 H1
           (range_Q h 0 23 Hhour) (range_Q m 0 59 Hminute)).
Qed.

Lemma formatTime_reads :
  formatTime s =
    ((intString (hour12 h) ++ ":" ++ pad2 m ++ " "
        ++ (if (12 <=? h)%Z then "PM" else "AM"))%string, []).
Proof.
  destruct fields_integer as (f0 & f1 & rest & Hs & H0 & H1 & Hv).
  unfold formatTime. rewrite Hs, Hv.
  unfold index. simpl nth_error. rewrite H0, H1.
  rewrite hour12_number, minStr_pad2 by lia.
  rewrite toString_int by (pose proof (hour12_range h Hhour); lia).
  unfold gt. change (Num 11) with (ofZ 11). autorewrite with ofZ.
  replace (11 <? h)%Z with (12 <=? h)%Z by lia.
  reflexivity.
Qed.

Lemma getTwilight_reads (amPm : string) :
  getTwilight s amPm =
    (let '(hour, min) := twilightHM (String.eqb amPm "am") h m in hhmm hour min, []).
Proof.
  destruct fields_integer as (f0 & f1 & rest & Hs & H0 & H1 & Hv).
  unfold getTwilight. rewrite Hs, Hv.
  unfold index. simpl nth_error. rewrite H0, H1.
  rewrite hour12_number. unfold twilightHM, ge.
  change (Num 36) with (ofZ 36). change (Num 24) with (ofZ 24).
  change (Num 1) with (ofZ 1). change (Num 2) with (ofZ 2).
  pose proof (hour12_range h Hhour) as Hr.
  autorewrite with ofZ.
  destruct (String.eqb amPm "am");
    [destruct (Z.leb_spec 36 m) | destruct (Z.ltb_spec m 36)];
    rewrite !minStr_pad2 by lia; reflexivity.
Qed.

End IntegerTime.

Lemma getTwilight_invalid (s amPm : string) :
  invalidTime (split colon s) = true ->
  getTwilight s amPm =
    (EmptyString, [Warn ("SunImage: getTwilight() failed on input " ++ dquote ++ s)]).
Proof.
  intros H. unfold getTwilight. rewrite H. reflexivity.
Qed.

(** ** Remainder and modulo *)

Lemma Qtrunc_nonneg (q : Q) : (0 <= q)%Q -> Qtrunc q = Qfloor q.
Proof.
  destruct q as [n d]. unfold Qle, Qtrunc, Qfloor. simpl. intros H.
  apply Z.quot_div_nonneg; lia.
Qed.

Lemma Qtrunc_opp (q : Q) : Qtrunc (- q) = (- Qtrunc q)%Z.
Proof.
  destruct q as [n d]. unfold Qtrunc. simpl.
  apply Z.quot_opp_l. discriminate.
Qed.

Lemma Qtrunc_comp (p q : Q) : (p == q)%Q -> Qtrunc p = Qtrunc q.
Proof.
  intros H. destruct (Qlt_le_dec p 0) as [Hn | Hp].
  - assert (Ho : Qtrunc (- p) = Qtrunc (- q)).
    { rewrite !Qtrunc_nonneg by lra. now rewrite H. }
    rewrite !Qtrunc_opp in Ho. lia.
  - rewrite !Qtrunc_nonneg by lra. now rewrite H.
Qed.

Lemma Qrem_comp (a a' b : Q) : (a == a')%Q -> (Qrem a b == Qrem a' b)%Q.
Proof.
  intros H. unfold Qrem.
  rewrite (Qtrunc_comp (a / b) (a' / b)) by now rewrite H.
  now rewrite H.
Qed.

Lemma Qrem_nonneg (a b : Q) : (0 <= a)%Q -> (0 < b)%Q -> (Qrem a b == Qmod a b)%Q.
Proof.
  intros Ha Hb. unfold Qrem, Qmod. rewrite Qtrunc_nonneg; [reflexivity|].
  apply Qle_shift_div_l; [assumption | lra].
Qed.

Lemma Qfloor_succ (q : Q) : Qfloor (q + 1) = (Qfloor q + 1)%Z.
Proof.
  destruct q as [n d]. unfold Qfloor, Qplus. simpl.
  rewrite Pos.mul_1_r, Z.mul_1_r.
  replace (n + Zpos d)%Z with (n + 1 * Zpos d)%Z by lia.
  apply Z.div_add. discriminate.
Qed.

Lemma Qmod_period (a b : Q) : (0 < b)%Q -> (Qmod (a + b) b == Qmod a b)%Q.
Proof.
  intros Hb. unfold Qmod.
  assert (E : ((a + b) / b == a / b + 1)%Q) by (field; lra).
  rewrite E, Qfloor_succ, inject_Z_plus. ring.
Qed.

Lemma Qmod_comp (a a' b : Q) : (a == a')%Q -> (Qmod a b == Qmod a' b)%Q.
Proof.
  intros H. unfold Qmod.
  rewrite (Qfloor_comp (a / b) (a' / b)) by (apply Qdiv_comp; [assumption | reflexivity]).
  apply Qminus_comp; [assumption | reflexivity].
Qed.

Lemma Qmod_range (a b : Q) : (0 < b)%Q -> (0 <= Qmod a b < b)%Q.
Proof.
  intros Hb. unfold Qmod.
  pose proof (Qfloor_le (a / b)) as Hlo.
  pose proof (Qlt_floor (a / b)) as Hhi.
  rewrite inject_Z_plus in Hhi.
  assert (E : (a == (a / b) * b)%Q) by (field; lra).
  set (f := inject_Z (Qfloor (a / b))) in *.
  set (d := (a / b)%Q) in *.
  split.
  - assert (f * b <= d * b)%Q by (apply Qmult_le_compat_r; [assumption | lra]). lra.
  - assert (d * b < (f + 1) * b)%Q by (apply Qmult_lt_compat_r; assumption). lra.
Qed.

Lemma rem_num (p q : Q) : ~ (q == 0)%Q -> rem (num p) (Num q) = num (Qrem p q).
Proof.
  intros H. unfold num at 1. rewrite rem_Num by assumption.
  apply num_eq, Qrem_comp, Qred_correct.
Qed.

(** ** [getRenderAngle] *)

Lemma getRenderAngle_Num (q : Q) :
  getRenderAngle (Num q) = radians (Qrem (q + 180 - 90) 360).
Proof.
  unfold getRenderAngle, radians, sub.
  change (neg (Num 90)) with (num (- 90)).
  change (Num q + Num 180)%js with (num (q + 180)).
  rewrite add_num. rewrite rem_num by (intros H; discriminate H).
  reflexivity.
Qed.

Lemma radians_eq (p q : Q) : (p == q)%Q -> radians p = radians q.
Proof.
  intros H. unfold radians. now rewrite (num_eq p q H).
Qed.

Lemma malformed_invalidTime (s : string) :
  malformed s -> invalidTime (split colon s) = true.
Proof.
  unfold malformed, outside, invalidTime. cbv zeta.
  intros [H | [H | [H | [[H | H] | [H | H]]]]].
  - apply Nat.ltb_lt in H. rewrite H. reflexivity.
  - rewrite H. simpl. now rewrite orb_true_r.
  - rewrite H. simpl. now rewrite !orb_true_r.
  - rewrite H. now rewrite !orb_true_r.
  - rewrite H. now rewrite !orb_true_r.
  - rewrite H. now rewrite !orb_true_r.
  - rewrite H. now rewrite !orb_true_r.
Qed.

(** * Properties of the specification *)

(** C7. For every time string whose first two colon-separated fields read
    as an hour [h] in 0..23 and a minute [m] in 0..59, whatever fields
    follow, [getAngle] returns [h*15 + m/4] and logs nothing; in
    particular 00:00 gives 0, 06:00 gives 90, 18:00 gives 270, 23:59 gives
    359.75, and the seconds of 08:21:14.988 are ignored. *)
Theorem getAngle_hour_minute :
  (forall (s : string) (h m : Q),
      reads s (Num h) (Num m) -> (0 <= h <= 23)%Q -> (0 <= m <= 59)%Q ->
      getAngle s = (num (h * 15 + m / 4), [])) /\
  getAngle "00:00" = (Num 0, []) /\
  getAngle "06:00" = (Num 90, []) /\
  getAngle "18:00" = (Num 270, []) /\
  getAngle "23:59" = (num 359.75, []) /\
  getAngle "08:21:14.988" = getAngle "08:21".
Proof.
  split; [exact getAngle_reads|].
  by_evaluation.
Qed.

Lemma getAngle_hour_minute_witness :
  getAngle "23:59:30" = (num (23 * 15 + 59 / 4), []).
Proof.
  apply (proj1 getAngle_hour_minute "23:59:30" 23%Q 59%Q).
  - exists "23", "59", ["30"]. by_evaluation.
  - split; discriminate.
  - split; discriminate.
Defined.

(** C8. For every valid time string HH:MM (hour 0..23, minute 0..59),
    [formatTime] returns the 12-hour display string and logs nothing: the
    hour modulo 12 with 0 shown as 12, a colon, the minute padded to two
    digits, a space, and PM exactly when the hour is at least 12; in
    particular 00:00 gives 12:00 AM, 12:00 gives 12:00 PM, 23:59 gives
    11:59 PM and 09:05 gives 9:05 AM. *)
Theorem formatTime_valid :
  (forall h m : Z,
      (0 <= h <= 23)%Z -> (0 <= m <= 59)%Z ->
      formatTime (hhmm h m) =
        ((intString (if (h mod 12 =? 0)%Z then 12 else h mod 12)%Z ++ ":" ++ pad2 m ++ " "
            ++ (if (12 <=? h)%Z then "PM" else "AM"))%string, []) /\
      String.length (pad2 m) = 2%nat) /\
  formatTime "00:00" = ("12:00 AM", []) /\
  formatTime "12:00" = ("12:00 PM", []) /\
  formatTime "23:59" = ("11:59 PM", []) /\
  formatTime "09:05" = ("9:05 AM", []).
Proof.
  split.
  - intros h m Hh Hm. split; [| apply pad2_length; lia].
    rewrite (formatTime_reads (hhmm h m) h m (hhmm_reads h m Hh Hm) Hh Hm).
    unfold hour12. rewrite Z.rem_mod_nonneg by lia. reflexivity.
  - by_evaluation.
Qed.

Lemma formatTime_valid_witness :
  formatTime (hhmm 22 45) = ("10:45 PM", []) /\ String.length (pad2 45) = 2%nat.
Proof.
  apply (proj1 formatTime_valid 22%Z 45%Z); lia.
Defined.






(** The inputs that the specification lists cannot be read. *)
Example unreadable_examples :
  unreadable "25:00" /\ unreadable "12:60" /\ unreadable "abc" /\ unreadable "12" /\
  unreadable "-1:30" /\ unreadable "12:x" /\ unreadable EmptyString.
Proof.
  repeat split.
  - right; right; right; left. right. vm_compute. reflexivity.
  - right; right; right; right. right. vm_compute. reflexivity.
  - left. vm_compute. lia.
  - left. vm_compute. lia.
  - right; right; right; left. left. vm_compute. reflexivity.
  - right; right; left. vm_compute. reflexivity.
  - left. vm_compute. lia.
Qed.

(** The same inputs under the reading of the validity test itself. *)
Example malformed_examples :
  malformed "25:00" /\ malformed "12:60" /\ malformed "abc" /\ malformed "12" /\
  malformed "-:-" /\ malformed EmptyString.
Proof.
  repeat split.
  - right; right; right; left. right. vm_compute. reflexivity.
  - right; right; right; right. right. vm_compute. reflexivity.
  - left. vm_compute. lia.
  - left. vm_compute. lia.
  - right; left. vm_compute. reflexivity.
  - left. vm_compute. lia.
Qed.

(** Why the bounds of [unreadable] are a whole unit out of the range: the
    program compares doubles.  The minute 59.0000000000000001 is above 59
    as it is written, and the double nearest to it is 59. *)
Example minute_rounds_into_range :
  gt (Number (Some "59.0000000000000001")) (Num 59) = true /\
  Binary64.ofRatio 590000000000000001 (10 ^ 16) = Binary64.ofZ 59.
Proof.
  by_evaluation.
Qed.

(** ** Twilight times *)

Lemma twilightHM_minute (isAm : bool) (h m hour min : Z) :
  (0 <= m <= 59)%Z -> twilightHM isAm h m = (hour, min) ->
  ((36 <= m -> 0 <= min <= 23) /\ (m < 36 -> 24 <= min <= 59))%Z.
Proof.
  intros Hm. unfold twilightHM.
  destruct isAm; [destruct (Z.leb_spec 36 m) | destruct (Z.ltb_spec m 36)];
    intros E; inversion E; subst; lia.
Qed.

Lemma twilightHM_hour (isAm : bool) (h m hour min : Z) :
  (0 <= h <= 23)%Z -> twilightHM isAm h m = (hour, min) -> (-1 <= hour <= 14)%Z.
Proof.
  intros Hh. pose proof (hour12_range h Hh). unfold twilightHM.
  destruct isAm; [destruct (36 <=? m)%Z | destruct (m <? 36)%Z];
    intros E; inversion E; subst; lia.
Qed.

(** C10. For every valid time string HH:MM and either branch of
    [getTwilight] ([am], or anything else), the result is an hour field,
    a colon and a minute padded to two digits; the minute is in 0..23 when
    the minute given is at least 36 and in 24..59 when it is below 36, so
    always in 0..59, and the second colon-separated field of the result
    reads back as that minute.  The hour can leave 0..23: first light of a
    01:00 sunrise has hour -1. *)
Theorem getTwilight_minute_in_range :
  (forall (h m : Z) (amPm : string),
      (0 <= h <= 23)%Z -> (0 <= m <= 59)%Z ->
      exists hour min : Z,
        getTwilight (hhmm h m) amPm = ((pad2 hour ++ ":" ++ pad2 min)%string, []) /\
        (36 <= m -> 0 <= min <= 23)%Z /\
        (m < 36 -> 24 <= min <= 59)%Z /\
        (0 <= min <= 59)%Z /\
        String.length (pad2 min) = 2%nat /\
        split colon (pad2 hour ++ ":" ++ pad2 min) = [pad2 hour; pad2 min] /\
        Number (Some (pad2 min)) = ofZ min) /\
  getTwilight (hhmm 1 0) "am" = ((pad2 (-1) ++ ":" ++ pad2 24)%string, []).
Proof.
  split; [| vm_compute; reflexivity].
  intros h m amPm Hh Hm.
  rewrite (getTwilight_reads (hhmm h m) h m (hhmm_reads h m Hh Hm) Hh Hm amPm).
  destruct (twilightHM (String.eqb amPm "am") h m) as [hour min] eqn:E.
  destruct (twilightHM_minute _ _ _ _ _ Hm E) as [Hge Hlt].
  pose proof (twilightHM_hour _ _ _ _ _ Hh E) as Hhour.
  assert (Hmin : (0 <= min <= 59)%Z) by lia.
  exists hour, min. repeat split; try lia.
  - apply pad2_length; lia.
  - apply (split_hhmm hour min); lia.
  - apply Number_pad2; lia.
Qed.

Lemma getTwilight_minute_in_range_witness :
  exists hour min : Z,
    getTwilight (hhmm 19 4) "pm" = ((pad2 hour ++ ":" ++ pad2 min)%string, []) /\
    (36 <= 4 -> 0 <= min <= 23)%Z /\
    (4 < 36 -> 24 <= min <= 59)%Z /\
    (0 <= min <= 59)%Z /\
    String.length (pad2 min) = 2%nat /\
    split colon (pad2 hour ++ ":" ++ pad2 min) = [pad2 hour; pad2 min] /\
    Number (Some (pad2 min)) = ofZ min.
Proof.
  apply (proj1 getTwilight_minute_in_range 19%Z 4%Z "pm"); lia.
Defined.

(** ** Label slots *)

Lemma sunriseBranch_cases (q : Q) :
  ((q <= 90)%Q /\ sunriseBranch (Num q) = BothBefore6AM) \/
  ((90 < q < 114)%Q /\ sunriseBranch (Num q) = TwilightBefore6AM) \/
  ((114 <= q)%Q /\ sunriseBranch (Num q) = BothAfter6AM).
Proof.
  unfold sunriseBranch.
  change (Num 90 + twilightDegrees)%js with (Num 114).
  destruct (le (Num q) (Num 90)) eqn:E1.
  { apply le_Num in E1. auto. }
  apply le_Num_false in E1.
  destruct (lt (Num q) (Num 114)) eqn:E2.
  { apply lt_Num in E2. auto. }
  apply lt_Num_false in E2. auto.
Qed.

Lemma sunsetBranch_cases (q : Q) :
  ((q <= 246)%Q /\ sunsetBranch (Num q) = BothBefore6PM) \/
  ((246 < q < 270)%Q /\ sunsetBranch (Num q) = TwilightAfter6PM) \/
  ((270 <= q <= 290)%Q /\ sunsetBranch (Num q) = SomewhatAfter6PM) \/
  ((290 < q)%Q /\ sunsetBranch (Num q) = WayPast6PM).
Proof.
  unfold sunsetBranch.
  change (Num 270 - twilightDegrees)%js with (Num 246).
  change (Num 270 + Num 20)%js with (Num 290).
  destruct (le (Num q) (Num 246)) eqn:E1.
  { apply le_Num in E1. auto. }
  apply le_Num_false in E1.
  destruct (lt (Num q) (Num 270)) eqn:E2.
  { apply lt_Num in E2. auto. }
  apply lt_Num_false in E2.
  destruct (le (Num q) (Num 290)) eqn:E3.
  { apply le_Num in E3. auto 6. }
  apply le_Num_false in E3. auto 6.
Qed.

(** C4. Slot assignment is total and follows the branch table.  For every
    sunrise angle exactly one of three branches fires: at most 90 gives
    slots 2 and 3, strictly between 90 and 114 gives slots 1 and 2,
    anything else (114 and above) gives slots 0 and 1.  For every sunset
    angle exactly one of four branches fires: at most 246 gives slots 4
    and 5, strictly between 246 and 270 gives 5 and 6, from 270 to 290
    gives 6 and 7, above 290 gives 7 and 8.  The boundary values go with
    the closed bounds: 90 to slots 2 and 3, 114 to 0 and 1, 246 to 4 and
    5, 270 and 290 to 6 and 7. *)
Theorem label_slot_table :
  (forall q : Q,
      ((q <= 90)%Q <-> sunriseSlots (Num q) = (2, 3)%nat) /\
      ((90 < q < 114)%Q <-> sunriseSlots (Num q) = (1, 2)%nat) /\
      ((114 <= q)%Q <-> sunriseSlots (Num q) = (0, 1)%nat) /\
      ((q <= 246)%Q <-> sunsetSlots (Num q) = (4, 5)%nat) /\
      ((246 < q < 270)%Q <-> sunsetSlots (Num q) = (5, 6)%nat) /\
      ((270 <= q <= 290)%Q <-> sunsetSlots (Num q) = (6, 7)%nat) /\
      ((290 < q)%Q <-> sunsetSlots (Num q) = (7, 8)%nat)) /\
  sunriseSlots (Num 90) = (2, 3)%nat /\
  sunriseSlots (Num 114) = (0, 1)%nat /\
  sunsetSlots (Num 246) = (4, 5)%nat /\
  sunsetSlots (Num 270) = (6, 7)%nat /\
  sunsetSlots (Num 290) = (6, 7)%nat.
Proof.
  split; [| repeat split; vm_compute; reflexivity].
  intros q. unfold sunriseSlots, sunsetSlots.
  destruct (sunriseBranch_cases q) as [[H1 ->] | [[H1 ->] | [H1 ->]]];
    destruct (sunsetBranch_cases q) as [[H2 ->] | [[H2 ->] | [[H2 ->] | [H2 ->]]]];
    repeat split; intros; try reflexivity; try discriminate; lra.
Qed.

(** ** The events of a run *)

Lemma events_bind {A B : Type} (c : Eff A) (k : A -> Eff B) :
  events (bind c k) = (events c ++ events (k (result c)))%list.
Proof.
  unfold bind, events, result. destruct c as [a l1]. simpl.
  now destruct (k a).
Qed.

Lemma result_bind {A B : Type} (c : Eff A) (k : A -> Eff B) :
  result (bind c k) = result (k (result c)).
Proof.
  unfold bind, result. destruct c as [a l1]. simpl.
  now destruct (k a).
Qed.

Lemma canvasCmds_app (l1 l2 : list Event) :
  canvasCmds (l1 ++ l2) = (canvasCmds l1 ++ canvasCmds l2)%list.
Proof. apply flat_map_app. Qed.

Lemma events_formatTime (s : string) : canvasCmds (events (formatTime s)) = [].
Proof.
  unfold formatTime. destruct (invalidTime (split colon s)); reflexivity.
Qed.

Lemma events_getTwilight (s amPm : string) :
  canvasCmds (events (getTwilight s amPm)) = [].
Proof.
  unfold getTwilight. destruct (invalidTime (split colon s)); [reflexivity|].
  destruct (String.eqb amPm "am");
    [destruct (ge _ _) | destruct (lt _ _)]; reflexivity.
Qed.

Lemma events_fixUp (j : SunJson) : canvasCmds (events (fixUp j)) = [].
Proof.
  unfold fixUp. rewrite !events_bind, !canvasCmds_app, !events_getTwilight.
  reflexivity.
Qed.

(** The fix-up leaves the three times given as they are. *)
Lemma result_fixUp (j : SunJson) :
  sunrise (result (fixUp j)) = sunrise j /\
  sunset (result (fixUp j)) = sunset j /\
  current_time (result (fixUp j)) = current_time j.
Proof.
  unfold fixUp. rewrite !result_bind. auto.
Qed.

Lemma painted_drawLabels (style : string) (path : list number)
      (j : SunJson) (a b : number) :
  painted style path (canvasCmds (events (drawLabels j a b))) = [].
Proof.
  unfold drawLabels. cbv zeta.
  repeat (rewrite events_bind, canvasCmds_app); rewrite !events_formatTime.
  reflexivity.
Qed.

Lemma painted_app_nofill (cs1 cs2 : list CanvasCmd) :
  forall style path,
    (forall style' path', painted style' path' cs2 = []) ->
    painted style path (cs1 ++ cs2) = painted style path cs1.
Proof.
  induction cs1 as [| c cs1 IH]; intros style path H; simpl.
  - apply H.
  - destruct c; try (now apply IH). now rewrite IH.
Qed.

(** The discs that the sun marker paints, from the three angles. *)
Lemma painted_drawSun (now rise set : number) :
  painted EmptyString [] (canvasCmds (events (drawSun now rise set))) =
    [ {| radius := Num 75; color := backgroundColor |};
      {| radius := Num 70; color := sunArcColor |};
      {| radius := Num 67;
         color := if gt now rise && lt now set then sunUpColor else sunDownColor |} ].
Proof. reflexivity. Qed.

(** C9. Whatever the sunrise, sunset and current-time strings, with
    [rise], [set] and [now] their dial angles: the sun marker is painted
    as three discs, and the inner disc (radius 67) is filled with the
    brighter daytime colour [sunUpColor] exactly when [now] is strictly
    between [rise] and [set], and with the dimmer [sunDownColor]
    otherwise. *)
Theorem sun_marker_color (data : SunJson) (rise set now : Q) :
  result (getAngle (sunrise data)) = Num rise ->
  result (getAngle (sunset data)) = Num set ->
  result (getAngle (current_time data)) = Num now ->
  exists c : string,
    painted EmptyString [] (canvasCmds (events (drawSunAndLabels data))) =
      [ {| radius := Num 75; color := backgroundColor |};
        {| radius := Num 70; color := sunArcColor |};
        {| radius := Num 67; color := c |} ] /\
    (c = sunUpColor <-> (rise < now < set)%Q) /\
    (c = sunDownColor <-> ~ (rise < now < set)%Q).
Proof.
  intros Hr Hs Hn.
  exists (if gt (Num now) (Num rise) && lt (Num now) (Num set)
          then sunUpColor else sunDownColor).
  split.
  - unfold drawSunAndLabels.
    destruct (result_fixUp data) as (E1 & E2 & E3).
    repeat (rewrite events_bind, canvasCmds_app).
    rewrite events_fixUp, !events_getAngle, !app_nil_l.
    rewrite E1, E2, E3, Hr, Hs, Hn.
    rewrite painted_app_nofill by (intros; apply painted_drawLabels).
    apply painted_drawSun.
  - unfold gt.
    destruct (lt (Num rise) (Num now)) eqn:L1; [apply lt_Num in L1 | apply lt_Num_false in L1];
      (destruct (lt (Num now) (Num set)) eqn:L2; [apply lt_Num in L2 | apply lt_Num_false in L2]);
      simpl; (split; split; intros H; try discriminate H; try reflexivity; lra).
Qed.

Lemma sun_marker_color_witness :
  exists c : string,
    painted EmptyString [] (canvasCmds (events (drawSunAndLabels sampleDay))) =
      [ {| radius := Num 75; color := backgroundColor |};
        {| radius := Num 70; color := sunArcColor |};
        {| radius := Num 67; color := c |} ] /\
    (c = sunUpColor <-> (95 < 501 # 4 < 286)%Q) /\
    (c = sunDownColor <-> ~ (95 < 501 # 4 < 286)%Q).
Proof.
  apply (sun_marker_color sampleDay 95%Q 286%Q (501 # 4)%Q);
    vm_compute; reflexivity.
Defined.

(** [sunUpColor] is the brighter of the two: more red and more green, and
    more light in all. *)
Remark sunUpColor_brighter :
  channels sunUpColor = (255, 224, 0)%Z /\ channels sunDownColor = (209, 175, 2)%Z.
Proof. by_evaluation. Qed.

(** ** Render angles *)

(** Every angle that [getImage] converts is a dial angle of [getAngle],
    moved by the twilight margin or by a quarter turn: none is below -24. *)
Lemma twilight_angle_bounds (s : string) :
  exists q : Q,
    (result (getAngle s) - twilightDegrees)%js = Num q /\ (-24 <= q < 336)%Q.
Proof.
  destruct (getAngle_range s) as (a & Ha & Hr). rewrite Ha.
  exists (Qred (a + - 24)). split.
  - reflexivity.
  - rewrite Qred_correct. lra.
Qed.

(** The exact numbers at -100 degrees: the remainder of [%] has the sign
    of the dividend, so [getRenderAngle] converts -10 where the
    mathematical modulo is 350. *)
Example getRenderAngle_negative_remainder :
  getRenderAngle (Num (-100)) = radians (-10) /\
  radians (Qmod (-100 + 180 - 90) 360) = radians 350 /\
  radians (-10) <> radians 350 /\
  getRenderAngle (Num (-100 + 360)) <> getRenderAngle (Num (-100)).
Proof.
  repeat split; vm_compute; try reflexivity; discriminate.
Qed.

(** *** Doubles that are quarters of a degree

    On the doubles of [k] quarters, with [k] below 2^53 in magnitude,
    [+], [-] and [%] are exact: rounding has nothing to round. *)

Section Quarters.

Local Open Scope Z_scope.

Lemma digits2_pos_iter (d p : positive) :
  SpecFloat.digits2_pos (Pos.iter xO p d) = (SpecFloat.digits2_pos p + d)%positive.
Proof.
  induction d as [| d IH] using Pos.peano_ind.
  - simpl. lia.
  - rewrite Pos.iter_succ. simpl. rewrite IH. lia.
Qed.

Lemma Zpos_iter (d p : positive) : Zpos (Pos.iter xO p d) = Zpos p * 2 ^ Zpos d.
Proof.
  induction d as [| d IH] using Pos.peano_ind.
  - simpl. lia.
  - rewrite Pos.iter_succ, Pos2Z.inj_xO, IH, Pos2Z.inj_succ, Z.pow_succ_r by lia. lia.
Qed.

Lemma iter_pos_iter {A : Type} (f : A -> A) (n : positive) (x : A) :
  SpecFloat.iter_pos f n x = Pos.iter f x n.
Proof.
  revert x. induction n as [n IH | n IH |]; intros x; simpl.
  - rewrite !IH. now rewrite <- !Pos.iter_swap.
  - now rewrite !IH.
  - reflexivity.
Qed.

Lemma shr_iter (n q : positive) :
  Pos.iter SpecFloat.shr_1
    (SpecFloat.Build_shr_record (Zpos (Pos.iter xO q n)) false false) n =
  SpecFloat.Build_shr_record (Zpos q) false false.
Proof.
  induction n as [| n IH] using Pos.peano_ind.
  - reflexivity.
  - rewrite Pos.iter_succ_r. rewrite Pos.iter_succ. simpl. exact IH.
Qed.

Lemma digits2_pos_bound (p : positive) (n : Z) :
  0 <= n -> Zpos p < 2 ^ n -> Zpos (SpecFloat.digits2_pos p) <= n.
Proof.
  revert n. induction p as [p IH | p IH |]; intros n Hn H; simpl.
  - assert (n <> 0) by (intros ->; simpl in H; lia).
    replace n with (Z.succ (n - 1)) in H by lia. rewrite Z.pow_succ_r in H by lia.
    specialize (IH (n - 1) ltac:(lia) ltac:(lia)). lia.
  - assert (n <> 0) by (intros ->; simpl in H; lia).
    replace n with (Z.succ (n - 1)) in H by lia. rewrite Z.pow_succ_r in H by lia.
    specialize (IH (n - 1) ltac:(lia) ltac:(lia)). lia.
  - assert (n <> 0) by (intros ->; simpl in H; lia). lia.
Qed.

(** A mantissa that comes to 53 digits by shifting out zeros, at an
    exponent in range, is kept. *)
Lemma shr_fexp_canonical (q : positive) (e : Z) :
  Zpos (SpecFloat.digits2_pos q) = 53 -> -1074 <= e <= 971 ->
  SpecFloat.shr_fexp 53 1024 (Zpos q) e SpecFloat.loc_Exact =
  (SpecFloat.Build_shr_record (Zpos q) false false, e).
Proof.
  intros Hd He.
  assert (F : SpecFloat.fexp 53 1024 (53 + e) = e).
  { unfold SpecFloat.fexp, SpecFloat.emin. lia. }
  unfold SpecFloat.shr_fexp. cbn [SpecFloat.Zdigits2]. rewrite Hd, F, Z.sub_diag.
  reflexivity.
Qed.

Lemma binary_round_aux_shifted (s : bool) (mx ex : Z) (q : positive) (e : Z) :
  SpecFloat.shr_fexp 53 1024 mx ex SpecFloat.loc_Exact =
    (SpecFloat.Build_shr_record (Zpos q) false false, e) ->
  Zpos (SpecFloat.digits2_pos q) = 53 -> -1074 <= e <= 971 ->
  SpecFloat.binary_round_aux 53 1024 s mx ex SpecFloat.loc_Exact =
  SpecFloat.S754_finite s q e.
Proof.
  intros H Hd He.
  unfold SpecFloat.binary_round_aux. rewrite H.
  cbn [SpecFloat.shr_m SpecFloat.loc_of_shr_record SpecFloat.round_nearest_even].
  rewrite (shr_fexp_canonical q e Hd He). cbn [SpecFloat.shr_m].
  replace (e <=? 1024 - 53) with true by (symmetry; apply Z.leb_le; lia).
  reflexivity.
Qed.

Lemma Zpos_shl (p : positive) (n : Z) : 0 <= n -> Zpos (Binary64.shl p n) = Zpos p * 2 ^ n.
Proof.
  intros Hn. destruct n as [| d | d]; simpl Binary64.shl.
  - simpl. lia.
  - apply Zpos_iter.
  - lia.
Qed.

Lemma digits_shl (p : positive) (n : Z) :
  0 <= n -> Zpos (SpecFloat.digits2_pos (Binary64.shl p n)) = Zpos (SpecFloat.digits2_pos p) + n.
Proof.
  intros Hn. destruct n as [| d | d]; simpl Binary64.shl.
  - lia.
  - rewrite digits2_pos_iter. lia.
  - lia.
Qed.

Lemma shl_shl (p : positive) (n m : Z) : 0 <= n -> 0 <= m -> Binary64.shl (Binary64.shl p n) m = Binary64.shl p (n + m).
Proof.
  intros Hn Hm. apply Pos2Z.inj. rewrite !Zpos_shl by lia. rewrite Z.pow_add_r by lia. lia.
Qed.

(** Rounding is exact, whatever the zeros at the end of the mantissa. *)
Lemma binary_round_exact (s : bool) (p : positive) (t e : Z) :
  0 <= t ->
  Zpos (SpecFloat.digits2_pos p) <= 53 ->
  -1000 <= e <= 900 ->
  SpecFloat.binary_round 53 1024 s (Binary64.shl p t) (e - t) = Binary64.canonical s p e.
Proof.
  intros Ht Hd He.
  set (d := Zpos (SpecFloat.digits2_pos p)) in *.
  assert (Hd0 : 0 < d) by (unfold d; lia).
  unfold SpecFloat.binary_round, Binary64.canonical. fold d.
  rewrite digits_shl by lia. fold d.
  assert (F : SpecFloat.fexp 53 1024 (d + t + (e - t)) = e + d - 53).
  { unfold SpecFloat.fexp, SpecFloat.emin. lia. }
  rewrite F. unfold SpecFloat.shl_align.
  assert (D : Zpos (SpecFloat.digits2_pos (Binary64.shl p (53 - d))) = 53)
    by (rewrite digits_shl by lia; fold d; lia).
  destruct (e + d - 53 - (e - t)) as [| n | n] eqn:En.
  - (* the mantissa has 53 digits *)
    replace t with (53 - d) by lia. replace (e - (53 - d)) with (e + d - 53) by lia.
    apply binary_round_aux_shifted; [apply shr_fexp_canonical | |]; (assumption || lia).
  - (* more than 53 digits: zeros are shifted out *)
    apply binary_round_aux_shifted; [| assumption | lia].
    unfold SpecFloat.shr_fexp. cbn [SpecFloat.Zdigits2].
    rewrite digits_shl by lia. fold d. rewrite F, En.
    unfold SpecFloat.shr. cbn [SpecFloat.shr_record_of_loc].
    rewrite iter_pos_iter.
    replace t with (53 - d + Zpos n) by lia. rewrite <- shl_shl by lia.
    change (Binary64.shl (Binary64.shl p (53 - d)) (Zpos n)) with (Pos.iter xO (Binary64.shl p (53 - d)) n).
    rewrite shr_iter. f_equal. lia.
  - (* fewer than 53 digits: the mantissa is moved left *)
    replace (Pos.iter xO (Binary64.shl p t) n) with (Binary64.shl (Binary64.shl p t) (Zpos n)) by reflexivity.
    rewrite shl_shl by lia. replace (t + Zpos n) with (53 - d) by lia.
    apply binary_round_aux_shifted; [apply shr_fexp_canonical | |]; (assumption || lia).
Qed.

Lemma binary_normalize_exact (z t e : Z) :
  Z.abs z < 2 ^ 53 -> 0 <= t -> -1000 <= e <= 900 ->
  SpecFloat.binary_normalize 53 1024 (z * 2 ^ t) (e - t) false =
  SpecFloat.binary_normalize 53 1024 z e false.
Proof.
  intros Hz Ht He.
  destruct z as [| p | p].
  - reflexivity.
  - assert (Hd : Zpos (SpecFloat.digits2_pos p) <= 53) by (apply digits2_pos_bound; lia).
    rewrite <- Zpos_shl by assumption. cbn [SpecFloat.binary_normalize].
    rewrite binary_round_exact by assumption.
    rewrite <- (binary_round_exact false p 0 e) by (assumption || lia).
    now rewrite Z.sub_0_r.
  - assert (Hd : Zpos (SpecFloat.digits2_pos p) <= 53) by (apply digits2_pos_bound; lia).
    replace (Z.neg p * 2 ^ t) with (Z.neg (Binary64.shl p t))
      by (rewrite <- !Pos2Z.opp_pos, Zpos_shl by assumption; lia).
    cbn [SpecFloat.binary_normalize].
    rewrite binary_round_exact by assumption.
    rewrite <- (binary_round_exact true p 0 e) by (assumption || lia).
    now rewrite Z.sub_0_r.
Qed.

(** The double of [z] quarters, [z] not 0: its sign, and its mantissa and
    exponent, which stand for [z]. *)
Lemma quarters_finite (z : Z) :
  z <> 0 -> Z.abs z < 2 ^ 53 ->
  exists (m : positive) (e : Z),
    Binary64.quarters z = SpecFloat.S754_finite (z <? 0) m e /\
    -56 <= e <= -2 /\
    SpecFloat.cond_Zopp (z <? 0) (Zpos m) = z * 2 ^ (- 2 - e).
Proof.
  intros Hz Hb. unfold Binary64.quarters, Binary64.prec, Binary64.emax.
  destruct z as [| p | p]; [contradiction | |].
  - assert (Hd : Zpos (SpecFloat.digits2_pos p) <= 53) by (apply digits2_pos_bound; lia).
    cbn [SpecFloat.binary_normalize].
    change (SpecFloat.binary_round 53 1024 false p (-2))
      with (SpecFloat.binary_round 53 1024 false (Binary64.shl p 0) (-2 - 0)).
    rewrite binary_round_exact by lia. unfold Binary64.canonical.
    set (d := Zpos (SpecFloat.digits2_pos p)) in *.
    assert (0 < d) by (unfold d; lia).
    eexists _, _. split; [reflexivity |]. split; [lia |].
    cbn [SpecFloat.cond_Zopp Z.ltb Z.compare]. rewrite Zpos_shl by lia.
    f_equal. f_equal. lia.
  - assert (Hd : Zpos (SpecFloat.digits2_pos p) <= 53) by (apply digits2_pos_bound; lia).
    cbn [SpecFloat.binary_normalize].
    change (SpecFloat.binary_round 53 1024 true p (-2))
      with (SpecFloat.binary_round 53 1024 true (Binary64.shl p 0) (-2 - 0)).
    rewrite binary_round_exact by lia. unfold Binary64.canonical.
    set (d := Zpos (SpecFloat.digits2_pos p)) in *.
    assert (0 < d) by (unfold d; lia).
    eexists _, _. split; [reflexivity |]. split; [lia |].
    cbn [SpecFloat.cond_Zopp Z.ltb Z.compare]. rewrite Zpos_shl by lia.
    replace (-2 - (-2 + d - 53)) with (53 - d) by lia. lia.
Qed.

Lemma shl_align_value (m : positive) (e e' : Z) :
  e' <= e -> Zpos (fst (SpecFloat.shl_align m e e')) = Zpos m * 2 ^ (e - e').
Proof.
  intros H. unfold SpecFloat.shl_align.
  destruct (e' - e) as [| d | d] eqn:E.
  - replace (e - e') with 0 by lia. simpl. lia.
  - lia.
  - cbn [fst]. rewrite Zpos_iter. f_equal. f_equal. lia.
Qed.

Lemma cond_Zopp_mul (s : bool) (a b : Z) :
  SpecFloat.cond_Zopp s a * b = SpecFloat.cond_Zopp s (a * b).
Proof. destruct s; simpl; lia. Qed.

(** Sums and differences of quarters are exact. *)
Lemma aligned (s : bool) (m : positive) (e ez z : Z) :
  SpecFloat.cond_Zopp s (Zpos m) = z * 2 ^ (- 2 - e) -> ez <= e -> e <= -2 ->
  SpecFloat.cond_Zopp s (Zpos (fst (SpecFloat.shl_align m e ez))) = z * 2 ^ (- 2 - ez).
Proof.
  intros H He H2. rewrite shl_align_value by assumption.
  rewrite <- cond_Zopp_mul, H. rewrite <- Z.mul_assoc, <- Z.pow_add_r by lia.
  f_equal. f_equal. lia.
Qed.

Lemma add_quarters (a b : Z) :
  Z.abs a < 2 ^ 53 -> Z.abs b < 2 ^ 53 -> Z.abs (a + b) < 2 ^ 53 ->
  Binary64.add (Binary64.quarters a) (Binary64.quarters b) = Binary64.quarters (a + b).
Proof.
  intros Ha Hb Hab.
  destruct (Z.eq_dec a 0) as [-> | Na]; [| destruct (Z.eq_dec b 0) as [-> | Nb]].
  - change (Binary64.quarters 0) with (SpecFloat.S754_zero false).
    destruct (Z.eq_dec b 0) as [-> | Nb]; [reflexivity |].
    destruct (quarters_finite b Nb Hb) as (m & e & E & _). simpl (0 + b). rewrite E. reflexivity.
  - change (Binary64.quarters 0) with (SpecFloat.S754_zero false).
    destruct (quarters_finite a Na Ha) as (m & e & E & _). rewrite Z.add_0_r, E. reflexivity.
  - destruct (quarters_finite a Na Ha) as (ma & ea & Ea & Ra & Va).
    destruct (quarters_finite b Nb Hb) as (mb & eb & Eb & Rb & Vb).
    rewrite Ea, Eb. unfold Binary64.add, Binary64.prec, Binary64.emax, SpecFloat.SFadd.
    rewrite (aligned _ _ _ _ a Va), (aligned _ _ _ _ b Vb) by lia.
    rewrite <- Z.mul_add_distr_r.
    replace (Z.min ea eb) with (- 2 - (- 2 - Z.min ea eb)) at 2 by lia.
    apply binary_normalize_exact; lia.
Qed.

Lemma sub_quarters (a b : Z) :
  a <> 0 -> b <> 0 ->
  Z.abs a < 2 ^ 53 -> Z.abs b < 2 ^ 53 -> Z.abs (a - b) < 2 ^ 53 ->
  Binary64.sub (Binary64.quarters a) (Binary64.quarters b) = Binary64.quarters (a - b).
Proof.
  intros Na Nb Ha Hb Hab.
  destruct (quarters_finite a Na Ha) as (ma & ea & Ea & Ra & Va).
  destruct (quarters_finite b Nb Hb) as (mb & eb & Eb & Rb & Vb).
  rewrite Ea, Eb. unfold Binary64.sub, Binary64.prec, Binary64.emax, SpecFloat.SFsub.
  rewrite (aligned _ _ _ _ a Va), (aligned _ _ _ _ b Vb) by lia.
  rewrite <- Z.mul_sub_distr_r.
  replace (Z.min ea eb) with (- 2 - (- 2 - Z.min ea eb)) at 2 by lia.
  apply binary_normalize_exact; lia.
Qed.

(** The remainder of quarters is the quarters of the remainder. *)
Lemma rem_quarters (a b : Z) :
  0 <= a < 2 ^ 53 -> 0 < b < 2 ^ 53 ->
  Binary64.rem (Binary64.quarters a) (Binary64.quarters b) = Binary64.quarters (a mod b).
Proof.
  intros Ha Hb.
  destruct (quarters_finite b ltac:(lia) ltac:(lia)) as (mb & eb & Eb & Rb & Vb).
  replace (b <? 0) with false in * by (symmetry; apply Z.ltb_ge; lia).
  rewrite Eb.
  destruct (Z.eq_dec a 0) as [-> | Na].
  - rewrite Z.mod_0_l by lia. reflexivity.
  - destruct (quarters_finite a Na ltac:(lia)) as (ma & ea & Ea & Ra & Va).
    replace (a <? 0) with false in * by (symmetry; apply Z.ltb_ge; lia).
    rewrite Ea. unfold Binary64.rem.
    cbn [SpecFloat.cond_Zopp] in Va, Vb.
    set (e := Z.min ea eb).
    assert (Xa : Zpos ma * 2 ^ (ea - e) = a * 2 ^ (- 2 - e)).
    { rewrite Va, <- Z.mul_assoc, <- Z.pow_add_r by lia. f_equal. f_equal. lia. }
    assert (Xb : Zpos mb * 2 ^ (eb - e) = b * 2 ^ (- 2 - e)).
    { rewrite Vb, <- Z.mul_assoc, <- Z.pow_add_r by lia. f_equal. f_equal. lia. }
    cbv zeta. fold e. rewrite Xa, Xb.
    assert (P : 0 < 2 ^ (- 2 - e)) by (apply Z.pow_pos_nonneg; lia).
    rewrite Z.rem_mod_nonneg by nia.
    rewrite Z.mul_mod_distr_r by lia.
    pose proof (Z.mod_pos_bound a b ltac:(lia)) as Hm.
    destruct (a mod b * 2 ^ (- 2 - e) =? 0) eqn:Z0.
    + apply Z.eqb_eq in Z0. assert (a mod b = 0) by nia.
      replace (a mod b) with 0 by lia. reflexivity.
    + unfold Binary64.quarters, Binary64.prec, Binary64.emax.
      replace e with (- 2 - (- 2 - e)) at 2 by lia.
      apply binary_normalize_exact; lia.
Qed.

Lemma renderDegrees_quarters (k : Z) :
  -360 <= k <= 2 ^ 52 + 1440 ->
  Binary64.renderDegrees (Binary64.quarters k) = Binary64.quarters ((k + 360) mod 1440).
Proof.
  intros Hk. unfold Binary64.renderDegrees.
  change (Binary64.ofZ 180) with (Binary64.quarters 720).
  change (Binary64.ofZ 90) with (Binary64.quarters 360).
  change (Binary64.ofZ 360) with (Binary64.quarters 1440).
  rewrite add_quarters, sub_quarters, rem_quarters by lia.
  f_equal. f_equal. lia.
Qed.

End Quarters.

Lemma Binary64_getRenderAngle_radians (a : Binary64.double) :
  Binary64.getRenderAngle a = Binary64.radians (Binary64.renderDegrees a).
Proof. reflexivity. Qed.

(** C2, as amended.  On doubles, for every dial angle [a] of a whole
    number [k] of quarter degrees, from -90 degrees up to 2^50 (every
    angle that [getImage] converts is one: the angles of [getAngle] are
    quarter degrees from 0 to 359.75, moved by -24, +24 or +90):
    [getRenderAngle] returns the radian conversion of the mathematical
    modulo of [a + 180 - 90] by 360, a value in [0, 360), and
    [getRenderAngle (a + 360)] equals [getRenderAngle a]. *)
Theorem getRenderAngle_quarter_degrees (k : Z) :
  (-360 <= k <= 2 ^ 52)%Z ->
  Binary64.getRenderAngle (Binary64.quarters k) =
    Binary64.radians (Binary64.quarters ((k + 360) mod 1440)) /\
  (0 <= (k + 360) mod 1440 < 1440)%Z /\
  Binary64.getRenderAngle (Binary64.add (Binary64.quarters k) (Binary64.ofZ 360)) =
    Binary64.getRenderAngle (Binary64.quarters k).
Proof.
  intros Hk.
  assert (P : (0 <= (k + 360) mod 1440 < 1440)%Z) by (apply Z.mod_pos_bound; lia).
  rewrite !Binary64_getRenderAngle_radians.
  change (Binary64.ofZ 360) with (Binary64.quarters 1440).
  rewrite add_quarters by lia.
  rewrite !renderDegrees_quarters by lia.
  replace ((k + 1440 + 360) mod 1440)%Z with ((k + 360) mod 1440)%Z
    by (replace (k + 1440 + 360)%Z with (k + 360 + 1 * 1440)%Z by lia;
        now rewrite Z.mod_add by lia).
  repeat split; apply P.
Qed.

Lemma getRenderAngle_quarter_degrees_witness :
  Binary64.getRenderAngle (Binary64.quarters (-96)) =
    Binary64.radians (Binary64.quarters ((-96 + 360) mod 1440)) /\
  (0 <= (-96 + 360) mod 1440 < 1440)%Z /\
  Binary64.getRenderAngle (Binary64.add (Binary64.quarters (-96)) (Binary64.ofZ 360)) =
    Binary64.getRenderAngle (Binary64.quarters (-96)).
Proof.
  apply (getRenderAngle_quarter_degrees (-96)). lia.
Defined.

(** C2, as stated, fails on doubles in three ways.  Below -90 the
    remainder of [%] has the sign of the dividend: at -100 degrees
    [getRenderAngle] returns the radians of -10 where the mathematical
    modulo is 350, the value it returns at 260.  Off the quarter degrees
    the sum with 360 is rounded: at 0.1 and at 0.1 + 360 the results
    differ in their last bits (1.5725416560468908 and
    1.5725416560468912).  And far out the doubles are too sparse: at 2^55
    degrees [getRenderAngle] converts 216 where the modulo is 218, and 224
    a full turn on. *)
Lemma getRenderAngle_not_periodic :
  (Binary64.getRenderAngle (Binary64.ofZ (-100)) = Binary64.radians (Binary64.ofZ (-10)) /\
   ((-100 + 180 - 90) mod 360 = 350)%Z /\
   Binary64.getRenderAngle (Binary64.add (Binary64.ofZ (-100)) (Binary64.ofZ 360)) =
     Binary64.radians (Binary64.ofZ 350) /\
   Binary64.radians (Binary64.ofZ (-10)) <> Binary64.radians (Binary64.ofZ 350)) /\
  (Binary64.tenth = SpecFloat.S754_finite false 7205759403792794 (-56) /\
   Binary64.getRenderAngle Binary64.tenth =
     SpecFloat.S754_finite false 7082098016197360 (-52) /\
   Binary64.getRenderAngle (Binary64.add Binary64.tenth (Binary64.ofZ 360)) =
     SpecFloat.S754_finite false 7082098016197362 (-52)) /\
  (Binary64.getRenderAngle (Binary64.ofZ (2 ^ 55)) = Binary64.radians (Binary64.ofZ 216) /\
   ((2 ^ 55 + 180 - 90) mod 360 = 218)%Z /\
   Binary64.getRenderAngle (Binary64.add (Binary64.ofZ (2 ^ 55)) (Binary64.ofZ 360)) =
     Binary64.radians (Binary64.ofZ 224) /\
   Binary64.radians (Binary64.ofZ 216) <> Binary64.radians (Binary64.ofZ 224)).
Proof.
  repeat split; vm_compute; try reflexivity; discriminate.
Qed.

(** ** What [getTwilight] returns *)

(** On the morning hours 1..12 the [am] branch is the subtraction of 96
    minutes in hour and minute: an hour and 36 minutes back, or two hours
    back and 24 minutes on. *)
Lemma getTwilight_am_morning (h m : Z) :
  (1 <= h <= 12)%Z -> (0 <= m <= 59)%Z ->
  getTwilight (hhmm h m) "am" =
    (if (36 <=? m)%Z then hhmm (h - 1) (m - 36) else hhmm (h - 2) (m + 24), []).
Proof.
  intros Hh Hm.
  assert (Hh' : (0 <= h <= 23)%Z) by lia.
  rewrite (getTwilight_reads (hhmm h m) h m (hhmm_reads h m Hh' Hm) Hh' Hm "am").
  unfold twilightHM. simpl String.eqb.
  assert (E : hour12 h = h).
  { unfold hour12. destruct (Z.eq_dec h 12) as [-> | Hne]; [reflexivity|].
    rewrite Z.rem_small by lia. destruct (Z.eqb_spec h 0); [lia | reflexivity]. }
  rewrite E. now destruct (36 <=? m)%Z.
Qed.

(** The other branch moves the time of the 12-hour clock forward by 84
    minutes: an hour and 24 minutes on, or two hours on and 36 minutes
    back. *)
Lemma getTwilight_pm_84_minutes (h m hour min : Z) :
  (0 <= h <= 23)%Z -> (0 <= m <= 59)%Z ->
  twilightHM false h m = (hour, min) ->
  (hour * 60 + min = hour12 h * 60 + m + 84)%Z.
Proof.
  intros Hh Hm. unfold twilightHM.
  destruct (m <? 36)%Z; intros E; inversion E; subst; lia.
Qed.

(** On the sunrise hours whose first light reads as a time again, the
    first light, 96 minutes added again, is the sunrise. *)
Lemma firstLight_roundtrip_morning (h m : Z) :
  (2 <= h <= 12)%Z -> (0 <= m <= 59)%Z ->
  reAdd96 (minutesOf (result (getTwilight (hhmm h m) "am"))) = minutesOf (hhmm h m).
Proof.
  intros Hh Hm. apply numberEqb_eq.
  apply (allZ_spec 0 60 (fun m => roundTripOK h m)); [| lia].
  apply (allZ_spec 2 11 (fun h => allZ 0 60 (fun m => roundTripOK h m))); [| lia].
  vm_compute. reflexivity.
Qed.

(** C1.  [getTwilight] with [pm] does not return the sunset plus 96
    minutes.  For the sunset 19:04 of the comment in [getImage] it returns
    08:28, which [formatTime] then shows as 8:28 AM, where 96 minutes
    after 19:04 is 20:40: the hour is first reduced to the 12-hour clock,
    and the two branches add 84 minutes (06:00 gives 07:24, 06:40 gives
    08:04). *)
Theorem getTwilight_pm_at_1904 :
  getTwilight "19:04" "pm" = ("08:28", []) /\
  formatTime "08:28" = ("8:28 AM", []) /\
  getTwilight "06:00" "pm" = ("07:24", []) /\
  getTwilight "06:40" "pm" = ("08:04", []).
Proof.
  by_evaluation.
Qed.

(** C3.  [getTwilight] with [am] reduces the hour to the 12-hour clock
    before it subtracts: a sunrise at 00:40 gives 11:04 and one at 13:40
    gives 00:04, where the rule on the hour itself gives hour -1, minute 4
    and 12:04. *)
Theorem getTwilight_am_hour_reduced :
  getTwilight "00:40" "am" = ("11:04", []) /\
  getTwilight "13:40" "am" = ("00:04", []) /\
  hhmm (13 - 1) (40 - 36) = "12:04".
Proof.
  by_evaluation.
Qed.

(** C5.  The round trip fails where the hour is reduced: the first light
    of a 00:40 sunrise is 11:04, and 96 minutes later is 12:40 (760
    minutes into the day), not 00:40; that of a 13:40 sunrise is 00:04,
    and 96 minutes later is 01:40. *)
Theorem firstLight_roundtrip_at_0040 :
  result (getTwilight "00:40" "am") = "11:04" /\
  reAdd96 (minutesOf "11:04") = Num 760 /\
  minutesOf "00:40" = Num 40 /\
  reAdd96 (minutesOf (result (getTwilight "13:40" "am"))) = Num 100 /\
  minutesOf "13:40" = Num 820.
Proof.
  by_evaluation.
Qed.

(** The first light of a sunrise between 01:00 and 01:35 has no hour that
    reads as a number. *)
Example firstLight_hour_unreadable :
  getTwilight "01:30" "am" = ("0-1:54", []) /\
  minutesOf "0-1:54" = NaN /\
  formatTime "0-1:54" =
    (EmptyString, [Warn ("SunImage: formatTime() failed on input " ++ dquote ++ "0-1:54")]).
Proof.
  by_evaluation.
Qed.

(** The labels of the sample day, as drawn: the last light of the 19:04
    sunset is labelled 8:28 AM. *)
Example sampleDay_labels :
  filter (fun c => match c with CenterText _ _ _ => true | _ => false end)
         (canvasCmds (events (drawSunAndLabels sampleDay))) =
    [ CenterText "Sunrise" (Num 350) (Num 450);
      CenterText "6:20 AM" (Num 350) (Num 510);
      CenterText "Sunset " (Num 1540) (Num 700);
      CenterText "7:04 PM" (Num 1540) (Num 760);
      CenterText "First light" (Num 350) (Num 700);
      CenterText "4:44 AM" (Num 350) (Num 760);
      CenterText "Last light" (Num 1490) (Num 820);
      CenterText "8:28 AM" (Num 1490) (Num 880) ].
Proof. by_evaluation. Qed.

(** The moon times of a day without moonrise or moonset. *)
Example fixUp_moon_sentinels :
  moonrise (result (fixUp sampleDay)) = "0:0" /\
  moonset (result (fixUp sampleDay)) = "23:59" /\
  firstLight (result (fixUp sampleDay)) = "04:44" /\
  lastLight (result (fixUp sampleDay)) = "08:28".
Proof. by_evaluation. Qed.


(** ** The image buffer *)

Lemma store_length (d : list Z) (idx v : Z) :
  List.length (store d idx v) = List.length d.
Proof.
  unfold store.
  destruct ((0 <=? idx) && (idx <? Z.of_nat (List.length d)))%Z eqn:E; [| reflexivity].
  apply andb_true_iff in E. destruct E as [E1 E2].
  apply Z.leb_le in E1. apply Z.ltb_lt in E2.
  rewrite length_app. cbn [List.length]. rewrite length_firstn, length_skipn. lia.
Qed.

Lemma byteAt_store (d : list Z) (idx v k : Z) :
  (0 <= k < Z.of_nat (List.length d))%Z ->
  byteAt (store d idx v) k = if (k =? idx)%Z then v mod 256 else byteAt d k.
Proof.
  intros Hk. unfold store, byteAt.
  destruct ((0 <=? idx) && (idx <? Z.of_nat (List.length d)))%Z eqn:E.
  - apply andb_true_iff in E. destruct E as [E1 E2].
    apply Z.leb_le in E1. apply Z.ltb_lt in E2.
    assert (Hlen : List.length (firstn (Z.to_nat idx) d) = Z.to_nat idx)
      by (rewrite length_firstn; lia).
    destruct (Z.eqb_spec k idx) as [-> | Hne].
    + rewrite app_nth2 by lia. rewrite Hlen, Nat.sub_diag. reflexivity.
    + destruct (Z_lt_le_dec k idx) as [Hlt | Hge].
      * rewrite app_nth1 by lia. rewrite nth_firstn.
        destruct (Nat.ltb_spec (Z.to_nat k) (Z.to_nat idx)); [reflexivity | lia].
      * rewrite app_nth2 by lia. rewrite Hlen.
        replace (Z.to_nat k - Z.to_nat idx)%nat
          with (S (Z.to_nat k - S (Z.to_nat idx)))%nat by lia.
        cbn [nth]. rewrite nth_skipn. f_equal. lia.
  - destruct (Z.eqb_spec k idx) as [-> | Hne]; [| reflexivity].
    exfalso. apply andb_false_iff in E.
    destruct E as [E | E]; [apply Z.leb_gt in E | apply Z.ltb_ge in E]; lia.
Qed.

(** The invariant rule of a counting loop. *)
Lemma forLoop_invariant {S : Type} (I : Z -> S -> Prop) (body : Z -> S -> S) :
  forall (n : nat) (lo : Z) (s : S),
    I lo s ->
    (forall i t, (lo <= i < lo + Z.of_nat n)%Z -> I i t -> I (i + 1)%Z (body i t)) ->
    I (lo + Z.of_nat n)%Z (forLoop n lo body s).
Proof.
  induction n as [| n IH]; intros lo s H0 Hstep.
  - simpl. now rewrite Z.add_0_r.
  - cbn [forLoop].
    replace (lo + Z.of_nat (Datatypes.S n))%Z with (lo + 1 + Z.of_nat n)%Z by lia.
    apply IH.
    + apply Hstep; [lia | assumption].
    + intros i t Hi. apply Hstep. lia.
Qed.

Lemma for_invariant {S : Type} (I : Z -> S -> Prop) (body : Z -> S -> S)
      (lo hi : Z) (s : S) :
  I lo s ->
  (forall i t, (lo <= i < hi)%Z -> I i t -> I (i + 1)%Z (body i t)) ->
  I (Z.max lo hi) (for_ lo hi body s).
Proof.
  intros H0 Hstep. unfold for_.
  replace (Z.max lo hi) with (lo + Z.of_nat (Z.to_nat (hi - lo)))%Z by lia.
  apply forLoop_invariant; [assumption|].
  intros i t Hi. apply Hstep. lia.
Qed.

Section FillRect.

Variables (W x y w h : Z) (r g b a : Z).
Hypothesis Hr : (0 <= r < 256)%Z.
Hypothesis Hg : (0 <= g < 256)%Z.
Hypothesis Hb : (0 <= b < 256)%Z.
Hypothesis Ha : (0 <= a < 256)%Z.

(** The body of the inner loop: the four stores of one pixel. *)
Let pixel (i j : Z) (d : list Z) : list Z :=
  let index := ((i * W + j) * 4)%Z in
  let d := store d (index + 0) r in
  let d := store d (index + 1) g in
  let d := store d (index + 2) b in
  let d := store d (index + 3) a in
  d.

Lemma pixel_length (i j : Z) (d : list Z) :
  List.length (pixel i j d) = List.length d.
Proof.
  unfold pixel. cbv zeta. now rewrite !store_length.
Qed.

Lemma pixel_byteAt (i j : Z) (d : list Z) (k : Z) :
  (0 <= k < Z.of_nat (List.length d))%Z ->
  byteAt (pixel i j d) k =
    if (k / 4 =? i * W + j)%Z then channel (r, g, b, a) (k mod 4) else byteAt d k.
Proof.
  intros Hk. unfold pixel. cbv zeta.
  rewrite !byteAt_store by (rewrite ?store_length; assumption).
  rewrite !Z.mod_small by assumption.
  unfold channel.
  pose proof (Z.div_mod k 4 ltac:(lia)) as Hdm.
  pose proof (Z.mod_pos_bound k 4 ltac:(lia)) as Hm.
  destruct (Z.eqb_spec (k / 4) (i * W + j)) as [Hp | Hp].
  - repeat match goal with
           | |- context [(?u =? ?v)%Z] => destruct (Z.eqb_spec u v); try lia
           end; reflexivity.
  - repeat match goal with
           | |- context [(?u =? ?v)%Z] => destruct (Z.eqb_spec u v); try lia
           end; reflexivity.
Qed.

(** One row: columns [x] to [x + w - 1] of row [i]. *)
Lemma row_filled (i : Z) (d0 : list Z) :
  let d := for_ x (x + w) (pixel i) d0 in
  List.length d = List.length d0 /\
  forall k, (0 <= k < Z.of_nat (List.length d0))%Z ->
    ((x <= k / 4 - i * W < x + w)%Z -> byteAt d k = channel (r, g, b, a) (k mod 4)) /\
    (~ (x <= k / 4 - i * W < x + w)%Z -> byteAt d k = byteAt d0 k).
Proof.
  cbv zeta.
  pose (I := fun (j : Z) (d : list Z) =>
    List.length d = List.length d0 /\
    forall k, (0 <= k < Z.of_nat (List.length d0))%Z ->
      ((x <= k / 4 - i * W < j)%Z -> byteAt d k = channel (r, g, b, a) (k mod 4)) /\
      (~ (x <= k / 4 - i * W < j)%Z -> byteAt d k = byteAt d0 k)).
  assert (H : I (Z.max x (x + w)) (for_ x (x + w) (pixel i) d0)).
  { apply for_invariant.
    - split; [reflexivity|]. intros k Hk. split; [lia | reflexivity].
    - intros j d Hj [Hlen Hd]. split; [now rewrite pixel_length|].
      intros k Hk. rewrite pixel_byteAt by lia.
      destruct (Hd k Hk) as [Hin Hout].
      destruct (Z.eqb_spec (k / 4) (i * W + j)) as [Hp | Hp].
      + split; [reflexivity | lia].
      + split; intros Hc; [apply Hin | apply Hout]; lia. }
  destruct H as [Hlen Hd]. split; [assumption|].
  intros k Hk. destruct (Hd k Hk) as [Hin Hout].
  split; intros Hc; [apply Hin | apply Hout]; lia.
Qed.

(** All rows: the pixels that the two loops visit take the colour, every
    other byte keeps its value, and the buffer keeps its length. *)
Lemma rows_filled (d0 : list Z) :
  let d := for_ y (y + h) (fun i d => for_ x (x + w) (pixel i) d) d0 in
  List.length d = List.length d0 /\
  forall k, (0 <= k < Z.of_nat (List.length d0))%Z ->
    (visited W x y w h (k / 4) -> byteAt d k = channel (r, g, b, a) (k mod 4)) /\
    (~ visited W x y w h (k / 4) -> byteAt d k = byteAt d0 k).
Proof.
  cbv zeta.
  pose (I := fun (i : Z) (d : list Z) =>
    List.length d = List.length d0 /\
    forall k, (0 <= k < Z.of_nat (List.length d0))%Z ->
      (visited W x y w (i - y) (k / 4) -> byteAt d k = channel (r, g, b, a) (k mod 4)) /\
      (~ visited W x y w (i - y) (k / 4) -> byteAt d k = byteAt d0 k)).
  assert (H : I (Z.max y (y + h))
                (for_ y (y + h) (fun i d => for_ x (x + w) (pixel i) d) d0)).
  { apply for_invariant.
    - split; [reflexivity|]. intros k Hk. split; [| reflexivity].
      intros (i & j & Hi & _). lia.
    - intros i d Hi [Hlen Hd].
      destruct (row_filled i d) as [Hlen' Hrow]. split; [congruence|].
      intros k Hk. rewrite Hlen in Hrow.
      destruct (Hrow k Hk) as [Hin Hout]. destruct (Hd k Hk) as [Hin0 Hout0].
      assert (Hdec : (x <= k / 4 - i * W < x + w)%Z \/ ~ (x <= k / 4 - i * W < x + w)%Z)
        by lia.
      split.
      + intros (i' & j' & Hi' & Hj' & Hp).
        destruct Hdec as [Hc | Hc]; [now apply Hin|].
        rewrite (Hout Hc). apply Hin0.
        exists i', j'. repeat split; try lia.
        assert (i' <> i) by (intros ->; lia). lia.
      + intros Hnot.
        assert (Hc : ~ (x <= k / 4 - i * W < x + w)%Z).
        { intros Hc. apply Hnot. exists i, (k / 4 - i * W)%Z. repeat split; lia. }
        rewrite (Hout Hc). apply Hout0.
        intros (i' & j' & Hi' & Hj' & Hp). apply Hnot.
        exists i', j'. repeat split; lia. }
  destruct H as [Hlen Hd]. split; [assumption|].
  intros k Hk. destruct (Hd k Hk) as [Hin Hout].
  split.
  - intros (i & j & Hi & Hj & Hp). apply Hin. exists i, j. repeat split; lia.
  - intros Hnot. apply Hout. intros (i & j & Hi & Hj & Hp). apply Hnot.
    exists i, j. repeat split; lia.
Qed.

End FillRect.

Lemma land_255 (v : Z) : Z.land v 255 = (v mod 256)%Z.
Proof.
  change 255%Z with (Z.ones 8). now rewrite Z.land_ones by lia.
Qed.

Lemma rgba_range (rgb : string) (r g b a : Z) :
  rgba rgb = (r, g, b, a) ->
  (0 <= r < 256 /\ 0 <= g < 256 /\ 0 <= b < 256 /\ a = 255)%Z.
Proof.
  unfold rgba. cbv zeta. rewrite !land_255. intros E. inversion E; subst.
  repeat split; try apply Z.mod_pos_bound; lia.
Qed.

(** The bytes after [myFillRect], for the theorems below. *)
Lemma myFillRect_bytes_aux (img : Image.ImageBuffer) (x y w h : Z) (rgb : string) (k : Z) :
  (0 <= k < Z.of_nat (List.length (Image.data img)))%Z ->
  (visited (Image.width img) x y w h (k / 4) ->
     byteAt (Image.data (myFillRect img x y w h rgb)) k = channel (rgba rgb) (k mod 4)) /\
  (~ visited (Image.width img) x y w h (k / 4) ->
     byteAt (Image.data (myFillRect img x y w h rgb)) k = byteAt (Image.data img) k).
Proof.
  unfold myFillRect.
  destruct (rgba rgb) as [[[r g] b] a] eqn:E.
  destruct (rgba_range rgb r g b a E) as (Hr & Hg & Hb & Ha).
  cbn [Image.data].
  apply (rows_filled (Image.width img) x y w h r g b a Hr Hg Hb ltac:(lia)).
Qed.

Lemma myFillRect_length (img : Image.ImageBuffer) (x y w h : Z) (rgb : string) :
  List.length (Image.data (myFillRect img x y w h rgb)) = List.length (Image.data img).
Proof.
  unfold myFillRect.
  destruct (rgba rgb) as [[[r g] b] a] eqn:E.
  destruct (rgba_range rgb r g b a E) as (Hr & Hg & Hb & Ha).
  cbn [Image.data].
  apply (rows_filled (Image.width img) x y w h r g b a Hr Hg Hb ltac:(lia)).
Qed.

(** X1. What [myFillRect] does to the buffer, byte by byte.  The width and
    height are kept and the buffer keeps its length.  Byte [k] of the
    buffer becomes the channel [k mod 4] of the colour when its pixel
    number [k / 4] is [i * width + j] for a row [i] and a column [j] of the
    rectangle, and keeps its value otherwise.  Pixels are addressed by
    their number alone: nothing is clipped at the right edge of the image,
    and stores outside the buffer are dropped. *)
Theorem myFillRect_bytes (img : Image.ImageBuffer) (x y w h : Z) (rgb : string) :
  let out := myFillRect img x y w h rgb in
  Image.width out = Image.width img /\
  Image.height out = Image.height img /\
  List.length (Image.data out) = List.length (Image.data img) /\
  forall k : Z,
    (0 <= k < Z.of_nat (List.length (Image.data img)))%Z ->
    (visited (Image.width img) x y w h (k / 4) ->
       byteAt (Image.data out) k = channel (rgba rgb) (k mod 4)) /\
    (~ visited (Image.width img) x y w h (k / 4) ->
       byteAt (Image.data out) k = byteAt (Image.data img) k).
Proof.
  cbv zeta. repeat split.
  - apply myFillRect_length.
  - now apply myFillRect_bytes_aux.
  - now apply myFillRect_bytes_aux.
Qed.

(** X2. A rectangle that lies between the left and right edges of the
    image is filled as a rectangle: the byte of channel [c] of the pixel
    at row [row] and column [col] becomes that channel of the colour when
    the pixel is in the rectangle, and keeps its value when it is not. *)
Theorem myFillRect_rectangle (img : Image.ImageBuffer) (x y w h : Z) (rgb : string)
        (row col c : Z) :
  (0 <= x)%Z -> (x + w <= Image.width img)%Z ->
  (0 <= col < Image.width img)%Z -> (0 <= row)%Z -> (0 <= c < 4)%Z ->
  ((row * Image.width img + col) * 4 + c < Z.of_nat (List.length (Image.data img)))%Z ->
  byteAt (Image.data (myFillRect img x y w h rgb)) ((row * Image.width img + col) * 4 + c) =
    if ((y <=? row) && (row <? y + h) && (x <=? col) && (col <? x + w))%Z
    then channel (rgba rgb) c
    else byteAt (Image.data img) ((row * Image.width img + col) * 4 + c).
Proof.
  intros Hx Hw Hcol Hrow Hc Hlen.
  set (W := Image.width img) in *.
  set (k := ((row * W + col) * 4 + c)%Z).
  assert (Hk : (0 <= k < Z.of_nat (List.length (Image.data img)))%Z) by (unfold k; nia).
  assert (Hdiv : (k / 4 = row * W + col)%Z).
  { unfold k. symmetry. apply (Z.div_unique _ 4 _ c); lia. }
  assert (Hmod : (k mod 4 = c)%Z).
  { unfold k. symmetry. apply (Z.mod_unique _ 4 (row * W + col) c); lia. }
  destruct (myFillRect_bytes_aux img x y w h rgb k Hk) as [Hin Hout].
  fold W in Hin, Hout. rewrite Hdiv in Hin, Hout. rewrite Hmod in Hin.
  destruct ((y <=? row) && (row <? y + h) && (x <=? col) && (col <? x + w))%Z eqn:E.
  - apply Hin. exists row, col.
    rewrite !andb_true_iff in E. destruct E as [[[E1 E2] E3] E4].
    apply Z.leb_le in E1, E3. apply Z.ltb_lt in E2, E4. repeat split; lia.
  - apply Hout. intros (i & j & Hi & Hj & Hp).
    assert (i = row /\ j = col) as [-> ->].
    { assert (Hi' : i = row) by nia. subst i. split; [reflexivity | lia]. }
    rewrite !andb_false_iff in E.
    destruct E as [[[E | E] | E] | E];
      [apply Z.leb_gt in E | apply Z.ltb_ge in E | apply Z.leb_gt in E | apply Z.ltb_ge in E];
      lia.
Qed.

Lemma myFillRect_rectangle_witness :
  byteAt (Image.data (myFillRect
            {| Image.width := 3; Image.height := 2; Image.data := repeat 7%Z 24 |}
            1 0 2 1 "#0A0B0C")) ((0 * 3 + 2) * 4 + 1) = 11%Z.
Proof.
  apply (myFillRect_rectangle
           {| Image.width := 3; Image.height := 2; Image.data := repeat 7%Z 24 |}
           1 0 2 1 "#0A0B0C" 0 2 1); simpl; lia.
Defined.

(** X3. Filling from the origin over the full width and height, as
    [getImage] does for the background, overwrites the whole buffer of an
    image of [width * height] pixels: every byte becomes its channel of
    the colour, whatever the buffer held. *)
Theorem myFillRect_whole_image (img : Image.ImageBuffer) (rgb : string) (k : Z) :
  (0 <= Image.width img)%Z ->
  Z.of_nat (List.length (Image.data img)) = (Image.width img * Image.height img * 4)%Z ->
  (0 <= k < Z.of_nat (List.length (Image.data img)))%Z ->
  byteAt (Image.data (myFillRect img 0 0 (Image.width img) (Image.height img) rgb)) k =
    channel (rgba rgb) (k mod 4).
Proof.
  intros HW Hlen Hk.
  apply (myFillRect_bytes_aux img 0 0 (Image.width img) (Image.height img) rgb k Hk).
  set (W := Image.width img) in *. set (H := Image.height img) in *.
  assert (HW0 : W <> 0%Z) by (intros E0; rewrite E0, !Z.mul_0_l in Hlen; lia).
  assert (HWpos : (0 < W)%Z) by lia.
  pose proof (Z.div_mod k 4 ltac:(lia)) as Hk4.
  pose proof (Z.mod_pos_bound k 4 ltac:(lia)) as Hm4.
  pose proof (Z.div_mod (k / 4) W ltac:(lia)) as Hp.
  pose proof (Z.mod_pos_bound (k / 4) W HWpos) as Hm.
  assert (Hq : (0 <= k / 4 < W * H)%Z) by (split; [lia | apply Z.div_lt_upper_bound; lia]).
  exists (k / 4 / W)%Z, ((k / 4) mod W)%Z. repeat split; try lia.
  - apply Z.div_pos; lia.
  - apply Z.div_lt_upper_bound; lia.
Qed.

Lemma myFillRect_whole_image_witness :
  byteAt (Image.data (myFillRect
            {| Image.width := 2; Image.height := 1; Image.data := repeat 7%Z 8 |}
            0 0 2 1 backgroundColor)) 6 = 250%Z.
Proof.
  apply (myFillRect_whole_image
           {| Image.width := 2; Image.height := 1; Image.data := repeat 7%Z 8 |}
           backgroundColor 6); simpl; lia.
Defined.

(** ** Colours *)

Lemma hex_digit_char (c : ascii) (d : N) :
  digitOf 16 c = Some d ->
  (d < 16)%N /\ isStrWhiteSpace c = false /\ isChar 45 c = false /\
  isChar 43 c = false /\ isChar 120 c = false /\ isChar 88 c = false.
Proof.
  destruct c as [[] [] [] [] [] [] [] []]; vm_compute; intros E;
    try discriminate E; inversion E; repeat split; reflexivity.
Qed.

(** X4. A colour string is read by its six hexadecimal digits, in either
    case, whatever its first character is: the red, green and blue bytes
    are the values of the three pairs of digits, and alpha is 255. *)
Theorem rgba_six_digits (c0 c1 c2 c3 c4 c5 c6 : ascii) (d1 d2 d3 d4 d5 d6 : N) :
  digitOf 16 c1 = Some d1 -> digitOf 16 c2 = Some d2 ->
  digitOf 16 c3 = Some d3 -> digitOf 16 c4 = Some d4 ->
  digitOf 16 c5 = Some d5 -> digitOf 16 c6 = Some d6 ->
  rgba (String c0 (String c1 (String c2 (String c3 (String c4 (String c5
         (String c6 EmptyString))))))) =
    (Z.of_N (16 * d1 + d2), Z.of_N (16 * d3 + d4), Z.of_N (16 * d5 + d6), 255%Z).
Proof.
  intros H1 H2 H3 H4 H5 H6.
  destruct (hex_digit_char c1 d1 H1) as (B1 & W1 & M1 & P1 & X1 & Y1).
  destruct (hex_digit_char c2 d2 H2) as (B2 & W2 & M2 & P2 & X2 & Y2).
  destruct (hex_digit_char c3 d3 H3) as (B3 & _).
  destruct (hex_digit_char c4 d4 H4) as (B4 & _).
  destruct (hex_digit_char c5 d5 H5) as (B5 & _).
  destruct (hex_digit_char c6 d6 H6) as (B6 & _).
  unfold rgba, parseInt16. cbv zeta.
  cbn [String.length Nat.sub substring list_ascii_of_string dropWhite].
  rewrite W1, M1, P1, X2, Y2. rewrite andb_false_r.
  cbn [digitRun]. rewrite H1, H2, H3, H4, H5, H6.
  set (v := ((((((0 * 16 + d1) * 16 + d2) * 16 + d3) * 16 + d4) * 16 + d5) * 16 + d6)%N).
  unfold toInt32, toUint32. rewrite !land_255, !Z.shiftr_div_pow2 by lia.
  assert (Hv : Z.of_N v =
    (((((Z.of_N d1 * 16 + Z.of_N d2) * 16 + Z.of_N d3) * 16 + Z.of_N d4) * 16
        + Z.of_N d5) * 16 + Z.of_N d6)%Z) by (unfold v; lia).
  rewrite Hv.
  repeat f_equal; Z.div_mod_to_equations; lia.
Qed.

Lemma rgba_six_digits_witness :
  rgba "#FFFFFA" = (Z.of_N (16 * 15 + 15), Z.of_N (16 * 15 + 15), Z.of_N (16 * 15 + 10), 255%Z).
Proof.
  apply (rgba_six_digits "#" "F" "F" "F" "F" "F" "A"); reflexivity.
Defined.

(** ** More on the dial angle *)

(** X5. Whatever the string, [getAngle] returns a finite angle between 0
    and 359.75 degrees, never NaN or an infinity, and logs either nothing
    or, with the angle 0, one warning. *)
Theorem getAngle_always_dial_angle (s : string) :
  exists q : Q,
    result (getAngle s) = Num q /\ (0 <= q <= 359.75)%Q /\
    (events (getAngle s) = [] \/
     (q == 0)%Q /\
     events (getAngle s) =
       [Warn ("SunImage: getAngle() failed on input " ++ dquote ++ s ++ dquote)]).
Proof.
  destruct (invalidTime (split colon s)) eqn:E.
  - rewrite (getAngle_invalid s E). exists 0%Q. cbn [result events fst snd].
    repeat split; try discriminate. right. split; reflexivity.
  - destruct (invalidTime_false _ E) as (f0 & f1 & rest & h & m & Hs & H0 & H1 & Hh & Hm).
    rewrite (getAngle_reads s h m); [| now exists f0, f1, rest | assumption..].
    exists (Qred (h * 15 + m / 4)). cbn [result events fst snd].
    split; [reflexivity|]. split; [| now left].
    rewrite Qred_correct.
    assert (Hq : (m / 4 == m * (1 # 4))%Q) by reflexivity.
    rewrite Hq. split; lra.
Qed.

Lemma getAngle_hhmm (h m : Z) :
  (0 <= h <= 23)%Z -> (0 <= m <= 59)%Z ->
  getAngle (hhmm h m) = (num (inject_Z (minuteOfDay h m) / 4), []).
Proof.
  intros Hh Hm.
  rewrite (getAngle_reads (hhmm h m) (inject_Z h) (inject_Z m));
    [| now apply hhmm_reads | now apply (range_Q h 0 23) | now apply (range_Q m 0 59)].
  f_equal. apply num_eq. unfold minuteOfDay.
  rewrite inject_Z_plus, inject_Z_mult. field.
Qed.

(** X6. On valid times the dial angle is a quarter of a degree a minute
    since midnight, so it keeps the order of the times: one time is
    earlier than another exactly when its angle is smaller, and two times
    have the same angle only when they are the same minute. *)
Theorem getAngle_order (h1 m1 h2 m2 : Z) :
  (0 <= h1 <= 23)%Z -> (0 <= m1 <= 59)%Z ->
  (0 <= h2 <= 23)%Z -> (0 <= m2 <= 59)%Z ->
  let a1 := result (getAngle (hhmm h1 m1)) in
  let a2 := result (getAngle (hhmm h2 m2)) in
  a1 = num (inject_Z (minuteOfDay h1 m1) / 4) /\
  (lt a1 a2 = true <-> (minuteOfDay h1 m1 < minuteOfDay h2 m2)%Z) /\
  (a1 = a2 <-> h1 = h2 /\ m1 = m2).
Proof.
  intros Hh1 Hm1 Hh2 Hm2. cbv zeta.
  rewrite !getAngle_hhmm by assumption. cbn [result fst].
  assert (Hlt : forall u v : Z,
             (inject_Z u / 4 < inject_Z v / 4)%Q <-> (u < v)%Z).
  { intros u v. rewrite <- inject_Z_lt.
    assert (E : forall t : Q, (t / 4 == t * (1 # 4))%Q) by (intros; reflexivity).
    rewrite !E. split; intros; lra. }
  split; [reflexivity|]. split.
  - unfold num. rewrite lt_Num, Qred_lt. apply Hlt.
  - split.
    + intros E0.
      assert (E : (inject_Z (minuteOfDay h1 m1) / 4 == inject_Z (minuteOfDay h2 m2) / 4)%Q)
        by (apply Qred_eq_iff; unfold num in E0; congruence).
      assert (Hm : minuteOfDay h1 m1 = minuteOfDay h2 m2).
      { destruct (Z.lt_trichotomy (minuteOfDay h1 m1) (minuteOfDay h2 m2)) as [L | [L | L]];
          [| assumption |]; apply Hlt in L; rewrite E in L; exfalso;
          apply (Qlt_irrefl _ L). }
      unfold minuteOfDay in Hm. lia.
    + intros [-> ->]. reflexivity.
Qed.

Lemma getAngle_order_witness :
  let a1 := result (getAngle (hhmm 6 20)) in
  let a2 := result (getAngle (hhmm 19 4)) in
  a1 = num (inject_Z (minuteOfDay 6 20) / 4) /\
  (lt a1 a2 = true <-> (minuteOfDay 6 20 < minuteOfDay 19 4)%Z) /\
  (a1 = a2 <-> 6%Z = 19%Z /\ 20%Z = 4%Z).
Proof.
  apply (getAngle_order 6 20 19 4); lia.
Defined.

(** ** More on the twilight times *)

(** X7. What [getTwilight] computes on every valid time HH:MM: the time of
    the 12-hour clock (hour 0 or 12 read as 12, hours 13 to 23 as 1 to
    11), moved back by 96 minutes for [am] and forward by 84 minutes for
    anything else, written as a padded hour (from -1 to 14), a colon and
    a padded minute (0 to 59), with nothing logged. *)
Theorem getTwilight_offset (h m : Z) (amPm : string) :
  (0 <= h <= 23)%Z -> (0 <= m <= 59)%Z ->
  exists hour min : Z,
    getTwilight (hhmm h m) amPm = (hhmm hour min, []) /\
    (0 <= min <= 59)%Z /\ (-1 <= hour <= 14)%Z /\
    minuteOfDay hour min =
      (minuteOfDay (if (h mod 12 =? 0)%Z then 12 else h mod 12) m
       + (if String.eqb amPm "am" then -96 else 84))%Z.
Proof.
  intros Hh Hm.
  rewrite (getTwilight_reads (hhmm h m) h m (hhmm_reads h m Hh Hm) Hh Hm amPm).
  destruct (twilightHM (String.eqb amPm "am") h m) as [hour min] eqn:E.
  pose proof (twilightHM_hour _ _ _ _ _ Hh E) as Hhour.
  destruct (twilightHM_minute _ _ _ _ _ Hm E) as [Hge Hlt].
  exists hour, min. split; [reflexivity|]. split; [lia|]. split; [assumption|].
  unfold twilightHM, hour12 in E. rewrite Z.rem_mod_nonneg in E by lia.
  unfold minuteOfDay.
  destruct (String.eqb amPm "am");
    [destruct (36 <=? m)%Z | destruct (m <? 36)%Z]; inversion E; subst; lia.
Qed.

Lemma getTwilight_offset_witness :
  exists hour min : Z,
    getTwilight (hhmm 16 20) "pm" = (hhmm hour min, []) /\
    (0 <= min <= 59)%Z /\ (-1 <= hour <= 14)%Z /\
    minuteOfDay hour min =
      (minuteOfDay (if (16 mod 12 =? 0)%Z then 12 else 16 mod 12) 20
       + (if String.eqb "pm" "am" then -96 else 84))%Z.
Proof.
  apply (getTwilight_offset 16 20 "pm"); lia.
Defined.

(** The first light of a sunrise from 01:36 to 12:59. *)
Lemma firstLight_time (h m : Z) :
  (0 <= h <= 12)%Z -> (0 <= m <= 59)%Z -> (96 <= minuteOfDay h m)%Z ->
  let t := (minuteOfDay h m - 96)%Z in
  getTwilight (hhmm h m) "am" = (hhmm (t / 60) (t mod 60), []) /\
  (0 <= t / 60 <= 11)%Z /\ (0 <= t mod 60 <= 59)%Z.
Proof.
  intros Hh Hm Ht. cbv zeta. unfold minuteOfDay in *.
  assert (Hh1 : (1 <= h <= 12)%Z) by lia.
  assert (Hq : (0 <= (60 * h + m - 96) / 60 <= 11)%Z).
  { assert ((60 * h + m - 96) / 60 < 12)%Z by (apply Z.div_lt_upper_bound; lia).
    split; [apply Z.div_pos; lia | lia]. }
  pose proof (Z.mod_pos_bound (60 * h + m - 96) 60 ltac:(lia)) as Hr.
  split; [| split; [assumption | lia]].
  rewrite (getTwilight_am_morning h m Hh1 Hm).
  destruct (Z.leb_spec 36 m) as [H36 | H36]; do 2 f_equal.
  + apply (Z.div_unique _ 60 _ (m - 36)); lia.
  + apply (Z.mod_unique _ 60 (h - 1) (m - 36)); lia.
  + apply (Z.div_unique _ 60 _ (m + 24)); lia.
  + apply (Z.mod_unique _ 60 (h - 2) (m + 24)); lia.
Qed.

(** X8. The first-light label.  For a sunrise from 01:36 to 12:59 the
    first light that [getTwilight] returns is the time 96 minutes before
    the sunrise, and [formatTime] shows it as that time of the morning:
    its hour (0 shown as 12), its padded minute and AM, with no warning
    on the way. *)
Theorem firstLight_label (h m : Z) :
  (0 <= h <= 12)%Z -> (0 <= m <= 59)%Z -> (96 <= minuteOfDay h m)%Z ->
  let t := (minuteOfDay h m - 96)%Z in
  getTwilight (hhmm h m) "am" = (hhmm (t / 60) (t mod 60), []) /\
  formatTime (hhmm (t / 60) (t mod 60)) =
    ((intString (if (t / 60 =? 0)%Z then 12 else t / 60) ++ ":" ++ pad2 (t mod 60)
        ++ " AM")%string, []).
Proof.
  intros Hh Hm Ht. cbv zeta. unfold minuteOfDay in *.
  assert (Hh1 : (1 <= h <= 12)%Z) by lia.
  assert (Hq : (0 <= (60 * h + m - 96) / 60 <= 11)%Z).
  { assert ((60 * h + m - 96) / 60 < 12)%Z by (apply Z.div_lt_upper_bound; lia).
    split; [apply Z.div_pos; lia | lia]. }
  pose proof (Z.mod_pos_bound (60 * h + m - 96) 60 ltac:(lia)) as Hr.
  split.
  - rewrite (getTwilight_am_morning h m Hh1 Hm).
    destruct (Z.leb_spec 36 m) as [H36 | H36]; do 2 f_equal.
    + apply (Z.div_unique _ 60 _ (m - 36)); lia.
    + apply (Z.mod_unique _ 60 (h - 1) (m - 36)); lia.
    + apply (Z.div_unique _ 60 _ (m + 24)); lia.
    + apply (Z.mod_unique _ 60 (h - 2) (m + 24)); lia.
  - set (H := ((60 * h + m - 96) / 60)%Z) in *.
    set (M := ((60 * h + m - 96) mod 60)%Z) in *.
    rewrite (formatTime_reads (hhmm H M) H M) by (try apply hhmm_reads; lia).
    unfold hour12. rewrite Z.rem_small by lia.
    destruct (Z.leb_spec 12 H); [lia | reflexivity].
Qed.

Lemma firstLight_label_witness :
  let t := (minuteOfDay 6 20 - 96)%Z in
  getTwilight (hhmm 6 20) "am" = (hhmm (t / 60) (t mod 60), []) /\
  formatTime (hhmm (t / 60) (t mod 60)) =
    ((intString (if (t / 60 =? 0)%Z then 12 else t / 60) ++ ":" ++ pad2 (t mod 60)
        ++ " AM")%string, []).
Proof.
  apply (firstLight_label 6 20); unfold minuteOfDay; lia.
Defined.

(** ** More on the label slots *)

(** X9. Whatever the two angles are, NaN and the infinities included, the
    four labels get four different slots of the table, none outside it:
    the sunrise and first-light labels two consecutive slots of the left
    column (slots 0 to 3), the sunset and last-light labels two
    consecutive slots of the right column (slots 4 to 8). *)
Theorem label_slots_distinct (sunriseAngle sunsetAngle : number) :
  let '(s1, s2) := sunriseSlots sunriseAngle in
  let '(s3, s4) := sunsetSlots sunsetAngle in
  s2 = S s1 /\ s4 = S s3 /\ (s2 <= 3)%nat /\ (4 <= s3)%nat /\ (s4 <= 8)%nat /\
  NoDup [s1; s2; s3; s4] /\
  labelSlots.[s1] = Some (slot s1) /\ labelSlots.[s2] = Some (slot s2) /\
  labelSlots.[s3] = Some (slot s3) /\ labelSlots.[s4] = Some (slot s4) /\
  NoDup [slot s1; slot s2; slot s3; slot s4].
Proof.
  unfold sunriseSlots, sunsetSlots.
  destruct (sunriseBranch sunriseAngle); destruct (sunsetBranch sunsetAngle);
    (repeat split; try reflexivity; try lia;
     repeat constructor; cbn [In]; intuition (discriminate || lia)).
Qed.

(** ** More on the render angle *)

Lemma radians_value (d : Q) : radians d = num (d * Math_PI_value / 180).
Proof.
  unfold radians. change Math_PI with (Num Math_PI_value).
  unfold num at 1. change (Num (Qred d) * Num Math_PI_value)%js
    with (num (Qred d * Math_PI_value)).
  unfold num at 1. rewrite div_Num by (intros H; discriminate H).
  apply num_eq. now rewrite !Qred_correct.
Qed.

Lemma Math_PI_positive : (0 < Math_PI_value)%Q.
Proof. reflexivity. Qed.

Lemma radians_bounds (d lo hi : Q) :
  (lo <= d < hi)%Q ->
  (lo * Math_PI_value / 180 <= d * Math_PI_value / 180 < hi * Math_PI_value / 180)%Q.
Proof.
  intros [H1 H2]. pose proof Math_PI_positive as Hpi.
  assert (E : forall t : Q, (t * Math_PI_value / 180 == t * (Math_PI_value * (1 # 180)))%Q)
    by (intros; field).
  rewrite !E.
  assert (Hc : (0 < Math_PI_value * (1 # 180))%Q) by lra.
  split.
  - apply Qmult_le_compat_r; lra.
  - apply Qmult_lt_compat_r; lra.
Qed.

Lemma Qrem_opp (a b : Q) : ~ (b == 0)%Q -> (Qrem (- a) b == - Qrem a b)%Q.
Proof.
  intros Hb. unfold Qrem.
  rewrite (Qtrunc_comp (- a / b) (- (a / b))) by (field; assumption).
  rewrite Qtrunc_opp, inject_Z_opp. ring.
Qed.

(** The remainder has the sign of the dividend and is smaller than the
    divisor. *)
Lemma Qrem_range (a b : Q) :
  (0 < b)%Q ->
  ((0 <= a -> 0 <= Qrem a b < b) /\ (a <= 0 -> - b < Qrem a b <= 0))%Q.
Proof.
  intros Hb. split; intros Ha.
  - rewrite Qrem_nonneg by assumption. now apply Qmod_range.
  - assert (E : (Qrem a b == - Qrem (- a) b)%Q).
    { rewrite Qrem_opp by lra. ring. }
    rewrite E, Qrem_nonneg by lra.
    pose proof (Qmod_range (- a) b Hb). lra.
Qed.

(** X10. The render angle of every angle that [getImage] converts: for
    the dial angle of any time string, taken as it is or moved by the 24
    degrees of twilight either way, [getRenderAngle] returns a finite
    number of radians from 0 up to, not including, a full turn. *)
Theorem getRenderAngle_of_time (s : string) (offset : Q) :
  (-24 <= offset <= 24)%Q ->
  exists r : Q,
    getRenderAngle (result (getAngle s) + Num offset)%js = Num r /\
    (0 <= r < fullTurn)%Q.
Proof.
  intros Ho.
  destruct (getAngle_range s) as (a & Ha & Hr). rewrite Ha.
  change (Num a + Num offset)%js with (num (a + offset)). unfold num at 1.
  rewrite getRenderAngle_Num, radians_value.
  exists (Qred (Qrem (Qred (a + offset) + 180 - 90) 360 * Math_PI_value / 180)).
  split; [reflexivity|]. rewrite Qred_correct.
  assert (Hd : (0 <= Qrem (Qred (a + offset) + 180 - 90) 360 < 360)%Q).
  { apply Qrem_range; [reflexivity|]. rewrite Qred_correct. lra. }
  pose proof (radians_bounds _ 0 360 Hd) as Hb.
  assert (E0 : (0 * Math_PI_value / 180 == 0)%Q) by reflexivity.
  assert (E1 : (360 * Math_PI_value / 180 == fullTurn)%Q) by reflexivity.
  rewrite E0, E1 in Hb. exact Hb.
Qed.

Lemma getRenderAngle_of_time_witness :
  exists r : Q,
    getRenderAngle (result (getAngle "00:10") + Num (-24))%js = Num r /\
    (0 <= r < fullTurn)%Q.
Proof.
  apply (getRenderAngle_of_time "00:10" (-24)%Q). split; discriminate.
Defined.

(** X11. [getRenderAngle] on every number.  A finite angle gives a finite
    result strictly within one full turn of 0: not negative for an angle
    of at least -90 degrees, not positive for an angle of at most -90.
    NaN and the two infinities give NaN. *)
Theorem getRenderAngle_total :
  (forall a : Q, exists r : Q,
      getRenderAngle (Num a) = Num r /\
      (- fullTurn < r < fullTurn)%Q /\
      ((-90 <= a)%Q -> (0 <= r)%Q) /\ ((a <= -90)%Q -> (r <= 0)%Q)) /\
  getRenderAngle NaN = NaN /\
  (forall negative : bool, getRenderAngle (Inf negative) = NaN).
Proof.
  split; [| split; [reflexivity | intros []; reflexivity]].
  intros a. rewrite getRenderAngle_Num, radians_value.
  exists (Qred (Qrem (a + 180 - 90) 360 * Math_PI_value / 180)).
  split; [reflexivity|]. rewrite Qred_correct.
  destruct (Qrem_range (a + 180 - 90) 360 ltac:(reflexivity)) as [Hpos Hneg].
  assert (E0 : (0 * Math_PI_value / 180 == 0)%Q) by reflexivity.
  assert (E1 : (360 * Math_PI_value / 180 == fullTurn)%Q) by reflexivity.
  assert (E2 : (- (360) * Math_PI_value / 180 == - fullTurn)%Q) by reflexivity.
  assert (Hft : (0 < fullTurn)%Q) by reflexivity.
  destruct (Qlt_le_dec a (-90)) as [Hlt | Hge].
  - assert (Hd : (- (360) <= Qrem (a + 180 - 90) 360 < 0 + 1)%Q) by (specialize (Hneg ltac:(lra)); lra).
    assert (Hd' : (Qrem (a + 180 - 90) 360 <= 0)%Q) by (specialize (Hneg ltac:(lra)); lra).
    assert (Hd'' : (- (360) < Qrem (a + 180 - 90) 360)%Q) by (specialize (Hneg ltac:(lra)); lra).
    set (q := Qrem (a + 180 - 90) 360) in *.
    assert (Eq : (q * Math_PI_value / 180 == q * (Math_PI_value * (1 # 180)))%Q) by field.
    pose proof Math_PI_positive as Hpi.
    assert (Hc : (0 < Math_PI_value * (1 # 180))%Q) by lra.
    assert (Hlo : (- (360) * (Math_PI_value * (1 # 180)) < q * (Math_PI_value * (1 # 180)))%Q)
      by (apply Qmult_lt_compat_r; assumption).
    assert (Hhi : (q * (Math_PI_value * (1 # 180)) <= 0 * (Math_PI_value * (1 # 180)))%Q)
      by (apply Qmult_le_compat_r; lra).
    assert (Eft : (fullTurn == 360 * (Math_PI_value * (1 # 180)))%Q) by reflexivity.
    rewrite Eq. repeat split; intros; lra.
  - specialize (Hpos ltac:(lra)).
    pose proof (radians_bounds _ 0 360 Hpos) as Hb.
    rewrite E0, E1 in Hb.
    repeat split; intros; try lra.
    assert (Ea : (a == -90)%Q) by lra.
    assert (Ez : (Qrem (a + 180 - 90) 360 == 0)%Q).
    { rewrite (Qrem_comp (a + 180 - 90) 0 360) by (rewrite Ea; reflexivity). reflexivity. }
    rewrite Ez. lra.
Qed.

(** ** A day whose sunrise cannot be read *)

Lemma fixUp_result (j : SunJson) :
  result (fixUp j) =
    {| sunrise := sunrise j; sunset := sunset j;
       moonrise := if String.eqb (moonrise j) "-:-" then "0:0" else moonrise j;
       moonset := if String.eqb (moonset j) "-:-" then "23:59" else moonset j;
       current_time := current_time j;
       firstLight := result (getTwilight (sunrise j) "am");
       lastLight := result (getTwilight (sunset j) "pm") |}.
Proof.
  unfold fixUp. rewrite !result_bind. reflexivity.
Qed.

Lemma labels_drawSun (now rise set : number) :
  filter isCenterText (canvasCmds (events (drawSun now rise set))) = [].
Proof. reflexivity. Qed.

Lemma labels_drawLabels (j : SunJson) (a b : number) :
  filter isCenterText (canvasCmds (events (drawLabels j a b))) =
    let sunriseXY := slot (fst (sunriseSlots a)) in
    let amTwilightXY := slot (snd (sunriseSlots a)) in
    let sunsetXY := slot (fst (sunsetSlots b)) in
    let pmTwilightXY := slot (snd (sunsetSlots b)) in
    [ CenterText "Sunrise" (x sunriseXY) (y sunriseXY);
      CenterText (result (formatTime (sunrise j)))
                 (x sunriseXY) (y sunriseXY + mediumFontCharHeight)%js;
      CenterText "Sunset " (x sunsetXY) (y sunsetXY);
      CenterText (result (formatTime (sunset j)))
                 (x sunsetXY) (y sunsetXY + mediumFontCharHeight)%js;
      CenterText "First light" (x amTwilightXY) (y amTwilightXY);
      CenterText (result (formatTime (firstLight j)))
                 (x amTwilightXY) (y amTwilightXY + mediumFontCharHeight)%js;
      CenterText "Last light" (x pmTwilightXY) (y pmTwilightXY);
      CenterText (result (formatTime (lastLight j)))
                 (x pmTwilightXY) (y pmTwilightXY + mediumFontCharHeight)%js ].
Proof.
  unfold drawLabels. cbv zeta.
  repeat (rewrite events_bind, canvasCmds_app); rewrite !events_formatTime.
  reflexivity.
Qed.

Lemma labels_drawSunAndLabels (data : SunJson) :
  filter isCenterText (canvasCmds (events (drawSunAndLabels data))) =
    filter isCenterText
      (canvasCmds (events (drawLabels (result (fixUp data))
                             (result (getAngle (sunrise data)))
                             (result (getAngle (sunset data)))))).
Proof.
  unfold drawSunAndLabels.
  destruct (result_fixUp data) as (E1 & E2 & E3).
  repeat (rewrite events_bind, canvasCmds_app).
  rewrite events_fixUp, !events_getAngle, !app_nil_l.
  rewrite E1, E2, E3, filter_app, labels_drawSun. reflexivity.
Qed.

(** X12. A sunrise that cannot be read does not stop the drawing.  The
    first light is then the empty string, the sunrise angle is 0, and the
    labels are drawn all the same: Sunrise at slot 2 and First light at
    slot 3, each with an empty time under it, and the sunset and
    last-light labels at the slots of the sunset angle. *)
Theorem malformed_sunrise_labels (data : SunJson) :
  malformed (sunrise data) ->
  firstLight (result (fixUp data)) = EmptyString /\
  result (getAngle (sunrise data)) = Num 0 /\
  exists (sunsetXY pmTwilightXY : Point) (sunsetText lastLightText : string),
    filter isCenterText (canvasCmds (events (drawSunAndLabels data))) =
      [ CenterText "Sunrise" (Num 350) (Num 700);
        CenterText EmptyString (Num 350) (Num 760);
        CenterText "Sunset " (x sunsetXY) (y sunsetXY);
        CenterText sunsetText (x sunsetXY) (y sunsetXY + mediumFontCharHeight)%js;
        CenterText "First light" (Num 400) (Num 820);
        CenterText EmptyString (Num 400) (Num 880);
        CenterText "Last light" (x pmTwilightXY) (y pmTwilightXY);
        CenterText lastLightText (x pmTwilightXY) (y pmTwilightXY + mediumFontCharHeight)%js ].
Proof.
  intros H. apply malformed_invalidTime in H.
  assert (Hfl : firstLight (result (fixUp data)) = EmptyString).
  { rewrite fixUp_result. cbn [firstLight]. now rewrite (getTwilight_invalid _ _ H). }
  assert (Ha : result (getAngle (sunrise data)) = Num 0)
    by now rewrite (getAngle_invalid _ H).
  split; [assumption|]. split; [assumption|].
  exists (slot (fst (sunsetSlots (result (getAngle (sunset data)))))),
         (slot (snd (sunsetSlots (result (getAngle (sunset data)))))),
         (result (formatTime (sunset data))),
         (result (formatTime (lastLight (result (fixUp data))))).
  rewrite labels_drawSunAndLabels, labels_drawLabels. cbv zeta.
  destruct (result_fixUp data) as (E1 & E2 & E3).
  rewrite Hfl, E1, E2, Ha, (formatTime_invalid _ H).
  reflexivity.
Qed.

Lemma malformed_sunrise_labels_witness :
  firstLight (result (fixUp
     {| sunrise := "-:-"; sunset := "19:04"; moonrise := "-:-"; moonset := "-:-";
        current_time := "08:21"; firstLight := EmptyString; lastLight := EmptyString |}))
    = EmptyString /\
  result (getAngle "-:-") = Num 0 /\
  exists (sunsetXY pmTwilightXY : Point) (sunsetText lastLightText : string),
    filter isCenterText (canvasCmds (events (drawSunAndLabels
     {| sunrise := "-:-"; sunset := "19:04"; moonrise := "-:-"; moonset := "-:-";
        current_time := "08:21"; firstLight := EmptyString; lastLight := EmptyString |}))) =
      [ CenterText "Sunrise" (Num 350) (Num 700);
        CenterText EmptyString (Num 350) (Num 760);
        CenterText "Sunset " (x sunsetXY) (y sunsetXY);
        CenterText sunsetText (x sunsetXY) (y sunsetXY + mediumFontCharHeight)%js;
        CenterText "First light" (Num 400) (Num 820);
        CenterText EmptyString (Num 400) (Num 880);
        CenterText "Last light" (x pmTwilightXY) (y pmTwilightXY);
        CenterText lastLightText (x pmTwilightXY) (y pmTwilightXY + mediumFontCharHeight)%js ].
Proof.
  apply (malformed_sunrise_labels
     {| sunrise := "-:-"; sunset := "19:04"; moonrise := "-:-"; moonset := "-:-";
        current_time := "08:21"; firstLight := EmptyString; lastLight := EmptyString |}).
  right; left. vm_compute. reflexivity.
Defined.

(** ** The arcs *)

Lemma Qfloor_unit (q : Q) : (0 <= q < 1)%Q -> Qfloor q = 0%Z.
Proof.
  intros [H0 H1].
  pose proof (Qfloor_le q) as Hlo. pose proof (Qlt_floor q) as Hhi.
  rewrite inject_Z_plus in Hhi.
  assert (A : (inject_Z (Qfloor q) < inject_Z 1)%Q).
  { change (inject_Z 1) with 1%Q. generalize dependent (inject_Z (Qfloor q)).
    intros f Hlo Hhi. lra. }
  assert (B : (inject_Z (-1) < inject_Z (Qfloor q))%Q).
  { change (inject_Z 1) with 1%Q in Hhi. change (inject_Z (-1)) with (-1)%Q.
    generalize dependent (inject_Z (Qfloor q)). intros f Hlo Hhi _. lra. }
  assert (A' : (Qfloor q < 1)%Z) by (apply inject_Z_lt; exact A).
  assert (B' : (-1 < Qfloor q)%Z) by (apply inject_Z_lt; exact B).
  lia.
Qed.

Lemma Qmod_small (a b : Q) : (0 <= a < b)%Q -> (Qmod a b == a)%Q.
Proof.
  intros [H0 H1]. unfold Qmod. rewrite Qfloor_unit.
  - change (inject_Z 0) with 0%Q. ring.
  - split.
    + apply Qle_shift_div_l; [lra | rewrite Qmult_0_l; assumption].
    + apply Qlt_shift_div_r; [lra | rewrite Qmult_1_l; assumption].
Qed.

Lemma Qmod_second (a b : Q) : (b <= a < b + b)%Q -> (0 < b)%Q -> (Qmod a b == a - b)%Q.
Proof.
  intros Ha Hb.
  rewrite (Qmod_comp a (a - b + b) b) by ring.
  rewrite Qmod_period by assumption. apply Qmod_small. lra.
Qed.

Lemma getRenderAngle_renderDegrees (a : Q) :
  (-90 <= a)%Q -> getRenderAngle (Num a) = radians (renderDegrees a).
Proof.
  intros Ha. rewrite getRenderAngle_Num. apply radians_eq.
  unfold renderDegrees. apply Qrem_nonneg; lra.
Qed.

(** The direction of a dial angle and of the same angle 24 degrees on. *)
Lemma renderDegrees_step (a : Q) :
  (-90 <= a)%Q -> (a + 24 < 630)%Q ->
  ((a + 24 < 270 -> renderDegrees (a + 24) - renderDegrees a == 24) /\
   (a < 270 <= a + 24 -> renderDegrees (a + 24) - renderDegrees a == 24 - 360) /\
   (270 <= a -> renderDegrees (a + 24) - renderDegrees a == 24))%Q.
Proof.
  intros Hlo Hhi. unfold renderDegrees. repeat split; intros H.
  - rewrite !Qmod_small by lra. ring.
  - rewrite (Qmod_second (a + 24 + 180 - 90)), (Qmod_small (a + 180 - 90)) by lra. ring.
  - rewrite !Qmod_second by lra. ring.
Qed.

Lemma renderDegrees_comp (a a' : Q) : (a == a')%Q -> (renderDegrees a == renderDegrees a')%Q.
Proof.
  intros H. unfold renderDegrees. apply Qmod_comp. now rewrite H.
Qed.

Lemma radians_lt (x y : Q) : (x < y)%Q -> lt (radians x) (radians y) = true.
Proof.
  intros H. rewrite !radians_value. unfold num. apply lt_Num.
  rewrite !Qred_correct.
  pose proof Math_PI_positive as Hpi.
  assert (E : forall t : Q, (t * Math_PI_value / 180 == t * (Math_PI_value * (1 # 180)))%Q)
    by (intros; field).
  rewrite !E.
  assert (P : (0 < Math_PI_value * (1 # 180))%Q) by lra.
  generalize dependent (Math_PI_value * (1 # 180))%Q. intros c _ Hc. nra.
Qed.

(** The calls of [drawArcs], run on the context. *)
Lemma drawArcs_stroked (sunriseAngle sunsetAngle : number) (style0 : string) (width0 : number) :
  Canvas.stroked style0 width0 (drawArcs sunriseAngle sunsetAngle) =
    [ dialArc "#E0D000" (getRenderAngle sunriseAngle) (getRenderAngle sunsetAngle);
      dialArc "#d45b0b" (getRenderAngle (sunriseAngle - twilightDegrees))
                        (getRenderAngle sunriseAngle);
      markerLine (getRenderAngle sunriseAngle);
      markerLine (getRenderAngle (sunriseAngle - twilightDegrees));
      dialArc "#d45b0b" (getRenderAngle sunsetAngle)
                        (getRenderAngle (sunsetAngle + twilightDegrees));
      markerLine (getRenderAngle sunsetAngle);
      markerLine (getRenderAngle (sunsetAngle + twilightDegrees)) ].
Proof.
  reflexivity.
Qed.

Lemma sweeps_step (a : Q) :
  (-90 <= a)%Q -> (a + 24 < 630)%Q ->
  ((a + 24 < 270 \/ 270 <= a)%Q ->
     sweeps (getRenderAngle (Num a)) (getRenderAngle (num (a + 24))) 24 /\
     lt (getRenderAngle (Num a)) (getRenderAngle (num (a + 24))) = true) /\
  ((a < 270 <= a + 24)%Q ->
     sweeps (getRenderAngle (Num a)) (getRenderAngle (num (a + 24))) (24 - 360) /\
     lt (getRenderAngle (num (a + 24))) (getRenderAngle (Num a)) = true).
Proof.
  intros Hlo Hhi.
  destruct (renderDegrees_step a Hlo Hhi) as (S1 & S2 & S3).
  assert (Ra : getRenderAngle (Num a) = radians (renderDegrees a))
    by (apply getRenderAngle_renderDegrees; lra).
  assert (Rb : getRenderAngle (num (a + 24)) = radians (renderDegrees (a + 24))).
  { unfold num. rewrite getRenderAngle_renderDegrees by (rewrite Qred_correct; lra).
    apply radians_eq, renderDegrees_comp, Qred_correct. }
  assert (Ba : (0 <= renderDegrees a < 360)%Q) by (apply Qmod_range; reflexivity).
  assert (Bb : (0 <= renderDegrees (a + 24) < 360)%Q) by (apply Qmod_range; reflexivity).
  rewrite Ra, Rb. split; intros H.
  - assert (D : (renderDegrees (a + 24) - renderDegrees a == 24)%Q)
      by (destruct H as [H | H]; [apply S1 | apply S3]; exact H).
    split.
    + exists (renderDegrees a), (renderDegrees (a + 24)). repeat split; try tauto; try reflexivity.
    + apply radians_lt. lra.
  - assert (D : (renderDegrees (a + 24) - renderDegrees a == 24 - 360)%Q) by (apply S2; exact H).
    split.
    + exists (renderDegrees a), (renderDegrees (a + 24)). repeat split; try tauto; try reflexivity.
    + apply radians_lt. lra.
Qed.

(** The twilight arcs, by the dial angles of sunrise and sunset. *)
Lemma twilight_arcs_of_angles (a b : Q) :
  (0 <= a < 360)%Q -> (0 <= b < 360)%Q ->
  ((a < 270 \/ 294 <= a)%Q ->
     sweeps (getRenderAngle (Num a - twilightDegrees)) (getRenderAngle (Num a)) 24 /\
     lt (getRenderAngle (Num a - twilightDegrees)) (getRenderAngle (Num a)) = true) /\
  ((270 <= a < 294)%Q ->
     sweeps (getRenderAngle (Num a - twilightDegrees)) (getRenderAngle (Num a)) (24 - 360) /\
     lt (getRenderAngle (Num a)) (getRenderAngle (Num a - twilightDegrees)) = true) /\
  ((b < 246 \/ 270 <= b)%Q ->
     sweeps (getRenderAngle (Num b)) (getRenderAngle (Num b + twilightDegrees)) 24 /\
     lt (getRenderAngle (Num b)) (getRenderAngle (Num b + twilightDegrees)) = true) /\
  ((246 <= b < 270)%Q ->
     sweeps (getRenderAngle (Num b)) (getRenderAngle (Num b + twilightDegrees)) (24 - 360) /\
     lt (getRenderAngle (Num b + twilightDegrees)) (getRenderAngle (Num b)) = true).
Proof.
  intros Ha Hb.
  change (Num a - twilightDegrees)%js with (num (a - 24)).
  change (Num b + twilightDegrees)%js with (num (b + 24)).
  destruct (sweeps_step b) as (B1 & B2); [lra | lra |].
  destruct (sweeps_step (Qred (a - 24))) as (A1 & A2);
    [rewrite Qred_correct; lra | rewrite Qred_correct; lra |].
  assert (E : getRenderAngle (num (Qred (a - 24) + 24)) = getRenderAngle (Num a)).
  { rewrite (getRenderAngle_renderDegrees a) by lra.
    unfold num. rewrite getRenderAngle_renderDegrees by (rewrite !Qred_correct; lra).
    apply radians_eq, renderDegrees_comp. rewrite !Qred_correct. ring. }
  rewrite E in A1, A2. fold (num (a - 24)) in A1, A2.
  repeat split.
  - apply A1. rewrite Qred_correct. lra.
  - apply A1. rewrite Qred_correct. lra.
  - apply A2. rewrite Qred_correct. lra.
  - apply A2. rewrite Qred_correct. lra.
  - apply B1. lra.
  - apply B1. lra.
  - apply B2. lra.
  - apply B2. lra.
Qed.

Lemma getAngle_minutes (h m : Z) :
  (0 <= h <= 23)%Z -> (0 <= m <= 59)%Z ->
  exists a : Q,
    result (getAngle (hhmm h m)) = Num a /\
    (a == inject_Z (minuteOfDay h m) * (1 # 4))%Q.
Proof.
  intros Hh Hm. rewrite getAngle_hhmm by assumption.
  exists (Qred (inject_Z (minuteOfDay h m) / 4)). split; [reflexivity |].
  rewrite Qred_correct. field.
Qed.

(** X13. The arcs of a day.  For a sunrise and a sunset HH:MM, once the
    dial circle is drawn and before the sun is, [getImage] strokes seven
    paths, in this order: the day arc, the AM twilight arc, the marker
    lines of sunrise and of first light, the PM twilight arc, and the
    marker lines of sunset and of last light.  Each
    arc is an arc of the circle of centre (960, 580) and radius 380 in the
    untransformed context, stroked 70 wide: the day arc in #E0D000 from
    the render angle of sunrise to that of sunset, the twilight arcs in
    #d45b0b from the render angle of sunrise less 24 degrees to that of
    sunrise, and from that of sunset to that of sunset plus 24 degrees.
    The marker lines, 3 wide in #2020F0, leave the width and the style of
    the arcs as they were.  The angles of a twilight arc are the radians
    of two directions in [0, 360) degrees, the end 24 degrees after the
    start and the larger angle; but for a sunrise from 18:00 to before
    19:36, and for a sunset from 16:24 to before 18:00, the arc crosses
    the zero direction: the end direction is 336 degrees before the start,
    and the end angle is the smaller one. *)
Theorem twilight_arcs_stroked
  (h1 m1 h2 m2 : Z) (style0 : string) (width0 : number) :
  (0 <= h1 <= 23)%Z -> (0 <= m1 <= 59)%Z ->
  (0 <= h2 <= 23)%Z -> (0 <= m2 <= 59)%Z ->
  Canvas.stroked style0 width0
    (drawArcs (result (getAngle (hhmm h1 m1))) (result (getAngle (hhmm h2 m2)))) =
    [ dialArc "#E0D000" (getRenderAngle (result (getAngle (hhmm h1 m1))))
                        (getRenderAngle (result (getAngle (hhmm h2 m2))));
      dialArc "#d45b0b" (getRenderAngle (result (getAngle (hhmm h1 m1)) - twilightDegrees))
                        (getRenderAngle (result (getAngle (hhmm h1 m1))));
      markerLine (getRenderAngle (result (getAngle (hhmm h1 m1))));
      markerLine (getRenderAngle (result (getAngle (hhmm h1 m1)) - twilightDegrees));
      dialArc "#d45b0b" (getRenderAngle (result (getAngle (hhmm h2 m2))))
                        (getRenderAngle (result (getAngle (hhmm h2 m2)) + twilightDegrees));
      markerLine (getRenderAngle (result (getAngle (hhmm h2 m2))));
      markerLine (getRenderAngle (result (getAngle (hhmm h2 m2)) + twilightDegrees)) ] /\
  ((minuteOfDay h1 m1 < 1080 \/ 1176 <= minuteOfDay h1 m1)%Z ->
     sweeps (getRenderAngle (result (getAngle (hhmm h1 m1)) - twilightDegrees))
            (getRenderAngle (result (getAngle (hhmm h1 m1)))) 24 /\
     lt (getRenderAngle (result (getAngle (hhmm h1 m1)) - twilightDegrees))
        (getRenderAngle (result (getAngle (hhmm h1 m1)))) = true) /\
  ((1080 <= minuteOfDay h1 m1 < 1176)%Z ->
     sweeps (getRenderAngle (result (getAngle (hhmm h1 m1)) - twilightDegrees))
            (getRenderAngle (result (getAngle (hhmm h1 m1)))) (24 - 360) /\
     lt (getRenderAngle (result (getAngle (hhmm h1 m1))))
        (getRenderAngle (result (getAngle (hhmm h1 m1)) - twilightDegrees)) = true) /\
  ((minuteOfDay h2 m2 < 984 \/ 1080 <= minuteOfDay h2 m2)%Z ->
     sweeps (getRenderAngle (result (getAngle (hhmm h2 m2))))
            (getRenderAngle (result (getAngle (hhmm h2 m2)) + twilightDegrees)) 24 /\
     lt (getRenderAngle (result (getAngle (hhmm h2 m2))))
        (getRenderAngle (result (getAngle (hhmm h2 m2)) + twilightDegrees)) = true) /\
  ((984 <= minuteOfDay h2 m2 < 1080)%Z ->
     sweeps (getRenderAngle (result (getAngle (hhmm h2 m2))))
            (getRenderAngle (result (getAngle (hhmm h2 m2)) + twilightDegrees)) (24 - 360) /\
     lt (getRenderAngle (result (getAngle (hhmm h2 m2)) + twilightDegrees))
        (getRenderAngle (result (getAngle (hhmm h2 m2)))) = true).
Proof.
  intros Hh1 Hm1 Hh2 Hm2.
  split; [apply drawArcs_stroked |].
  destruct (getAngle_minutes h1 m1 Hh1 Hm1) as (a & -> & Ea).
  destruct (getAngle_minutes h2 m2 Hh2 Hm2) as (b & -> & Eb).
  assert (T1 : (0 <= minuteOfDay h1 m1 < 1440)%Z) by (unfold minuteOfDay; lia).
  assert (T2 : (0 <= minuteOfDay h2 m2 < 1440)%Z) by (unfold minuteOfDay; lia).
  assert (Q1 : forall z : Z, (minuteOfDay h1 m1 < z)%Z <-> (a < inject_Z z * (1 # 4))%Q).
  { intros z. rewrite Zlt_Qlt, Ea. split; intros H; lra. }
  assert (Q2 : forall z : Z, (minuteOfDay h2 m2 < z)%Z <-> (b < inject_Z z * (1 # 4))%Q).
  { intros z. rewrite Zlt_Qlt, Eb. split; intros H; lra. }
  assert (L1 : forall z : Z, (z <= minuteOfDay h1 m1)%Z <-> (inject_Z z * (1 # 4) <= a)%Q).
  { intros z. rewrite Zle_Qle, Ea. split; intros H; lra. }
  assert (L2 : forall z : Z, (z <= minuteOfDay h2 m2)%Z <-> (inject_Z z * (1 # 4) <= b)%Q).
  { intros z. rewrite Zle_Qle, Eb. split; intros H; lra. }
  destruct (twilight_arcs_of_angles a b) as (A1 & A2 & B1 & B2).
  - pose proof (proj1 (L1 0%Z) (proj1 T1)). pose proof (proj1 (Q1 1440%Z) (proj2 T1)).
    change (inject_Z 0 * (1 # 4))%Q with (0 * (1 # 4))%Q in *.
    change (inject_Z 1440 * (1 # 4))%Q with (1440 * (1 # 4))%Q in *. lra.
  - pose proof (proj1 (L2 0%Z) (proj1 T2)). pose proof (proj1 (Q2 1440%Z) (proj2 T2)).
    change (inject_Z 0 * (1 # 4))%Q with (0 * (1 # 4))%Q in *.
    change (inject_Z 1440 * (1 # 4))%Q with (1440 * (1 # 4))%Q in *. lra.
  - repeat split.
    + apply A1. rewrite Q1, L1 in H.
      change (inject_Z 1080) with 1080%Q in H. change (inject_Z 1176) with 1176%Q in H. lra.
    + apply A1. rewrite Q1, L1 in H.
      change (inject_Z 1080) with 1080%Q in H. change (inject_Z 1176) with 1176%Q in H. lra.
    + apply A2. rewrite Q1, L1 in H.
      change (inject_Z 1080) with 1080%Q in H. change (inject_Z 1176) with 1176%Q in H. lra.
    + apply A2. rewrite Q1, L1 in H.
      change (inject_Z 1080) with 1080%Q in H. change (inject_Z 1176) with 1176%Q in H. lra.
    + apply B1. rewrite Q2, L2 in H.
      change (inject_Z 984) with 984%Q in H. change (inject_Z 1080) with 1080%Q in H. lra.
    + apply B1. rewrite Q2, L2 in H.
      change (inject_Z 984) with 984%Q in H. change (inject_Z 1080) with 1080%Q in H. lra.
    + apply B2. rewrite Q2, L2 in H.
      change (inject_Z 984) with 984%Q in H. change (inject_Z 1080) with 1080%Q in H. lra.
    + apply B2. rewrite Q2, L2 in H.
      change (inject_Z 984) with 984%Q in H. change (inject_Z 1080) with 1080%Q in H. lra.
Qed.

Lemma twilight_arcs_stroked_witness :
  Canvas.stroked "#000000" (Num 1)
    (drawArcs (result (getAngle (hhmm 6 20))) (result (getAngle (hhmm 19 4)))) =
    [ dialArc "#E0D000" (getRenderAngle (result (getAngle (hhmm 6 20))))
                        (getRenderAngle (result (getAngle (hhmm 19 4))));
      dialArc "#d45b0b" (getRenderAngle (result (getAngle (hhmm 6 20)) - twilightDegrees))
                        (getRenderAngle (result (getAngle (hhmm 6 20))));
      markerLine (getRenderAngle (result (getAngle (hhmm 6 20))));
      markerLine (getRenderAngle (result (getAngle (hhmm 6 20)) - twilightDegrees));
      dialArc "#d45b0b" (getRenderAngle (result (getAngle (hhmm 19 4))))
                        (getRenderAngle (result (getAngle (hhmm 19 4)) + twilightDegrees));
      markerLine (getRenderAngle (result (getAngle (hhmm 19 4))));
      markerLine (getRenderAngle (result (getAngle (hhmm 19 4)) + twilightDegrees)) ] /\
  ((minuteOfDay 6 20 < 1080 \/ 1176 <= minuteOfDay 6 20)%Z ->
     sweeps (getRenderAngle (result (getAngle (hhmm 6 20)) - twilightDegrees))
            (getRenderAngle (result (getAngle (hhmm 6 20)))) 24 /\
     lt (getRenderAngle (result (getAngle (hhmm 6 20)) - twilightDegrees))
        (getRenderAngle (result (getAngle (hhmm 6 20)))) = true) /\
  ((1080 <= minuteOfDay 6 20 < 1176)%Z ->
     sweeps (getRenderAngle (result (getAngle (hhmm 6 20)) - twilightDegrees))
            (getRenderAngle (result (getAngle (hhmm 6 20)))) (24 - 360) /\
     lt (getRenderAngle (result (getAngle (hhmm 6 20))))
        (getRenderAngle (result (getAngle (hhmm 6 20)) - twilightDegrees)) = true) /\
  ((minuteOfDay 19 4 < 984 \/ 1080 <= minuteOfDay 19 4)%Z ->
     sweeps (getRenderAngle (result (getAngle (hhmm 19 4))))
            (getRenderAngle (result (getAngle (hhmm 19 4)) + twilightDegrees)) 24 /\
     lt (getRenderAngle (result (getAngle (hhmm 19 4))))
        (getRenderAngle (result (getAngle (hhmm 19 4)) + twilightDegrees)) = true) /\
  ((984 <= minuteOfDay 19 4 < 1080)%Z ->
     sweeps (getRenderAngle (result (getAngle (hhmm 19 4))))
            (getRenderAngle (result (getAngle (hhmm 19 4)) + twilightDegrees)) (24 - 360) /\
     lt (getRenderAngle (result (getAngle (hhmm 19 4)) + twilightDegrees))
        (getRenderAngle (result (getAngle (hhmm 19 4)))) = true).
Proof.
  apply (twilight_arcs_stroked 6 20 19 4 "#000000" (Num 1)); lia.
Defined.

(** ** [CreateImages] and [run] *)

(** X14. [CreateImages] returns true exactly when [getImage] returned an
    image with data and [saveFile] returned.  The writer is called at most
    once, with the file name given and the bytes of that image, and only
    when there is such an image; [getImage] is called once; and a call
    that returns false logs exactly one warning or error, one that returns
    true none. *)
Theorem CreateImages_saved
    (getImage : Request -> Outcome (option ImageResult))
    (saveFile : string -> list Z -> Outcome unit)
    (location fileName lat lon apiKey timeZone dateStr : string) :
  let request := {| location := location; lat := lat; lon := lon;
                    apiKey := apiKey; timeZone := timeZone; dateStr := dateStr |} in
  let '(ok, calls) :=
    CreateImages getImage saveFile location fileName lat lon apiKey timeZone dateStr in
  (ok = true <->
     exists type buffer u,
       getImage request = Returned (Some {| imageType := type; imageData := Some buffer |}) /\
       saveFile fileName (data buffer) = Returned u) /\
  (forall f bytes, In (SaveFile f bytes) calls ->
     f = fileName /\
     exists type buffer,
       getImage request = Returned (Some {| imageType := type; imageData := Some buffer |}) /\
       bytes = data buffer) /\
  (List.length (savedFiles calls) <= 1)%nat /\
  requestedDates calls = [dateStr] /\
  problemsLogged calls = (if ok then 0 else 1)%nat.
Proof.
  cbv zeta. unfold CreateImages.
  destruct (getImage _) as [[[type [buffer |]] |] | e] eqn:G;
    [destruct (saveFile fileName (data buffer)) as [u | e] eqn:S0 | | |];
    (split; [| split; [| split; [cbn; lia | split; reflexivity]]]).
  - split; [intros _; now exists type, buffer, u | reflexivity].
  - intros f bytes H. cbn [In] in H.
    repeat (destruct H as [H | H]; try discriminate H); [| contradiction].
    inversion H; subst. split; [reflexivity | now exists type, buffer].
  - split; [discriminate|].
    intros (t & b & u & E1 & E2). inversion E1; subst. congruence.
  - intros f bytes H. cbn [In] in H.
    repeat (destruct H as [H | H]; try discriminate H); [| contradiction].
    inversion H; subst. split; [reflexivity | now exists type, buffer].
  - split; [discriminate|]. intros (t & b & u & E1 & E2). discriminate E1.
  - intros f bytes H. cbn [In] in H.
    repeat (destruct H as [H | H]; try discriminate H). contradiction.
  - split; [discriminate|]. intros (t & b & u & E1 & E2). discriminate E1.
  - intros f bytes H. cbn [In] in H.
    repeat (destruct H as [H | H]; try discriminate H). contradiction.
  - split; [discriminate|]. intros (t & b & u & E1 & E2). discriminate E1.
  - intros f bytes H. cbn [In] in H.
    repeat (destruct H as [H | H]; try discriminate H). contradiction.
Qed.

Lemma CreateImages_calls
    (getImage : Request -> Outcome (option ImageResult))
    (saveFile : string -> list Z -> Outcome unit)
    (location fileName lat lon apiKey timeZone dateStr : string) :
  let c := CreateImages getImage saveFile location fileName lat lon apiKey timeZone dateStr in
  requestedDates (snd c) = [dateStr] /\
  (fst c = true -> savedFiles (snd c) = [fileName]).
Proof.
  cbv zeta. unfold CreateImages.
  destruct (getImage _) as [[[type [buffer |]] |] | e];
    [destruct (saveFile fileName (data buffer)) | | |];
    split; try reflexivity; discriminate.
Qed.

Lemma requestedDates_app (l1 l2 : list Call) :
  requestedDates (l1 ++ l2) = (requestedDates l1 ++ requestedDates l2)%list.
Proof. apply flat_map_app. Qed.

Lemma savedFiles_app (l1 l2 : list Call) :
  savedFiles (l1 ++ l2) = (savedFiles l1 ++ savedFiles l2)%list.
Proof. apply flat_map_app. Qed.

(** X15. [run] stops at the first image that fails.  Without the API key
    it logs an error and exits with code 1 before any call of [getImage].
    With it, [getImage] is called for the five dates in order, up to and
    including the first for which [CreateImages] returns false and for no
    date after it; the code returned is 0 exactly when all five calls
    returned true, and then the five files were handed to the writer in
    order; otherwise it is 1. *)
Theorem run_stops_at_first_failure
    (key : string)
    (getImage : Request -> Outcome (option ImageResult))
    (saveFile : string -> list Z -> Outcome unit) :
  let created (image : string * string) : bool :=
    fst (CreateImages getImage saveFile "Onset, MA" (fst image) "42.4" "-71.6"
                      key "America/New_York" (snd image)) in
  let '(code, calls) := run (Some key) getImage saveFile in
  (requestedDates calls = map snd (upToFirstFailure created runImages) /\
   (code = 0%Z <-> forallb created runImages = true) /\
   (code = 0%Z \/ code = 1%Z) /\
   (code = 0%Z -> savedFiles calls = map fst runImages)) /\
  run None getImage saveFile =
    (1%Z, [LogError "No url specified in env IPGEOLOACATION_API_KEY"; ProcessExit 1]).
Proof.
  cbv zeta. unfold run, runImages. cbn [upToFirstFailure forallb map fst snd].
  pose proof (CreateImages_calls getImage saveFile "Onset, MA" "OnsetSun.jpg"
                "42.4" "-71.6" key "America/New_York" EmptyString) as H1.
  pose proof (CreateImages_calls getImage saveFile "Onset, MA" "OnsetSun-June.jpg"
                "42.4" "-71.6" key "America/New_York" "2021-06-21") as H2.
  pose proof (CreateImages_calls getImage saveFile "Onset, MA" "OnsetSun-dec.jpg"
                "42.4" "-71.6" key "America/New_York" "2021-12-21") as H3.
  pose proof (CreateImages_calls getImage saveFile "Onset, MA" "OnsetSun-sep.jpg"
                "42.4" "-71.6" key "America/New_York" "2021-09-01") as H4.
  pose proof (CreateImages_calls getImage saveFile "Onset, MA" "OnsetSun-mar.jpg"
                "42.4" "-71.6" key "America/New_York" "2021-03-08") as H5.
  cbv zeta in H1, H2, H3, H4, H5.
  destruct (CreateImages _ _ _ "OnsetSun.jpg" _ _ _ _ _) as [b1 l1].
  destruct (CreateImages _ _ _ "OnsetSun-June.jpg" _ _ _ _ _) as [b2 l2].
  destruct (CreateImages _ _ _ "OnsetSun-dec.jpg" _ _ _ _ _) as [b3 l3].
  destruct (CreateImages _ _ _ "OnsetSun-sep.jpg" _ _ _ _ _) as [b4 l4].
  destruct (CreateImages _ _ _ "OnsetSun-mar.jpg" _ _ _ _ _) as [b5 l5].
  cbn [fst snd] in *.
  destruct H1 as [R1 S1], H2 as [R2 S2], H3 as [R3 S3], H4 as [R4 S4], H5 as [R5 S5].
  unfold andAwait.
  destruct b1; [destruct b2; [destruct b3; [destruct b4; [destruct b5 |] |] |] |];
    cbn [fst snd app andb];
    rewrite ?requestedDates_app, ?savedFiles_app, ?R1, ?R2, ?R3, ?R4, ?R5;
    (split; [| reflexivity]);
    (split; [reflexivity |]);
    (split; [split; [try discriminate; reflexivity | try discriminate; reflexivity] |]);
    (split; [auto |]); try discriminate.
  intros _. rewrite S1, S2, S3, S4, S5 by reflexivity. reflexivity.
Qed.

(** ** Display strings and angles of derived times *)

Lemma nodupb_injective {A : Type} (g : A -> string) (l : list A) :
  nodupb (map g l) = true ->
  forall u v, In u l -> In v l -> g u = g v -> u = v.
Proof.
  induction l as [| a l IH]; intros H u v Hu Hv E; [contradiction|].
  cbn [map nodupb] in H. apply andb_true_iff in H. destruct H as [Hn Hr].
  apply negb_true_iff in Hn.
  assert (Hnot : forall w, In w l -> g a <> g w).
  { intros w Hw Eq.
    assert (existsb (String.eqb (g a)) (map g l) = true); [| congruence].
    apply existsb_exists. exists (g w). split; [now apply in_map | now apply String.eqb_eq]. }
  destruct Hu as [-> | Hu], Hv as [-> | Hv].
  - reflexivity.
  - exfalso. exact (Hnot v Hv E).
  - exfalso. exact (Hnot u Hu (eq_sym E)).
  - exact (IH Hr u v Hu Hv E).
Qed.

Lemma displayed_injective (t1 t2 : Z) :
  (0 <= t1 < 1440)%Z -> (0 <= t2 < 1440)%Z -> displayed t1 = displayed t2 -> t1 = t2.
Proof.
  intros H1 H2 E.
  assert (Hn : nodupb (map (fun i => displayed (Z.of_nat i)) (seq 0 1440)) = true)
    by (vm_compute; reflexivity).
  assert (Ht : Z.to_nat t1 = Z.to_nat t2); [| lia].
  apply (nodupb_injective _ _ Hn).
  - apply in_seq. lia.
  - apply in_seq. lia.
  - rewrite !Z2Nat.id by lia. exact E.
Qed.

(** X16. No two valid times are displayed the same way: when [formatTime]
    returns the same string for two times HH:MM, they are the same hour
    and minute. *)
Theorem formatTime_injective (h1 m1 h2 m2 : Z) :
  (0 <= h1 <= 23)%Z -> (0 <= m1 <= 59)%Z ->
  (0 <= h2 <= 23)%Z -> (0 <= m2 <= 59)%Z ->
  result (formatTime (hhmm h1 m1)) = result (formatTime (hhmm h2 m2)) ->
  h1 = h2 /\ m1 = m2.
Proof.
  intros Hh1 Hm1 Hh2 Hm2 E.
  assert (D : forall h m, (0 <= h <= 23)%Z -> (0 <= m <= 59)%Z ->
              displayed (minuteOfDay h m) = result (formatTime (hhmm h m))).
  { intros h m Hh Hm. unfold displayed, minuteOfDay.
    replace ((60 * h + m) / 60)%Z with h by (apply (Z.div_unique _ 60 _ m); lia).
    replace ((60 * h + m) mod 60)%Z with m by (apply (Z.mod_unique _ 60 h m); lia).
    reflexivity. }
  rewrite <- !D in E by assumption.
  apply displayed_injective in E; unfold minuteOfDay in *; lia.
Qed.

Lemma formatTime_injective_witness : 9%Z = 9%Z /\ 5%Z = 5%Z.
Proof.
  apply (formatTime_injective 9 5 9 5); try lia. reflexivity.
Defined.

(** X17. The first-light label names the start of the AM twilight arc.
    For a sunrise from 01:36 to 12:59, the dial angle of the first light
    that [getTwilight] returns is the dial angle of the sunrise less the
    24 degrees of twilight, the angle at which [getImage] starts the AM
    twilight arc. *)
Theorem firstLight_angle (h m : Z) :
  (0 <= h <= 12)%Z -> (0 <= m <= 59)%Z -> (96 <= minuteOfDay h m)%Z ->
  getAngle (result (getTwilight (hhmm h m) "am")) =
    ((result (getAngle (hhmm h m)) - twilightDegrees)%js, []).
Proof.
  intros Hh Hm Ht.
  destruct (firstLight_time h m Hh Hm Ht) as (E & Hq & Hr).
  rewrite E. cbn [result fst].
  rewrite !getAngle_hhmm by lia. cbn [result fst].
  change twilightDegrees with (num 24). unfold sub.
  change (neg (num 24)) with (num (- 24)). rewrite add_num.
  f_equal. apply num_eq.
  set (t := (minuteOfDay h m - 96)%Z) in *.
  replace (minuteOfDay (t / 60) (t mod 60)) with t
    by (unfold minuteOfDay; pose proof (Z.div_mod t 60 ltac:(lia)); lia).
  unfold t. unfold Zminus. rewrite inject_Z_plus. change (inject_Z (- (96))) with (- (96))%Q.
  field.
Qed.

Lemma firstLight_angle_witness :
  getAngle (result (getTwilight (hhmm 6 20) "am")) =
    ((result (getAngle (hhmm 6 20)) - twilightDegrees)%js, []).
Proof.
  apply (firstLight_angle 6 20); unfold minuteOfDay; lia.
Defined.
